(** * ExpiringMap: a map whose entries carry an absolute deadline

    Shallow embedding of [expiringmap.go] (package [expiringmap]).

    - [time.Time] is an instant on the time line, a [Z]; [Time.Before] is the
      strict order on instants.
    - The receiver [m *ExpiringMap[K, V]] has one field, [items]; the state
      threaded through every method is that field together with the number
      of calls made to [time.Now()] so far.  The wall clock is a schedule
      [clock : nat -> Time]: the [n]-th call of [time.Now()] returns
      [clock n].
    - A Go closure that mutates captured variables is a function that takes
      the captured variables and returns them updated.
    - Go's [int] is 64 bits wide; [count += 1] wraps around. *)

From stdpp Require Import gmap list fin_maps strings.

Local Open Scope Z_scope.

(** ** Time *)

Definition Time := Z.

(** [t.Before(u)]: the instant [t] is strictly before [u]. *)
Definition Before (t u : Time) : bool := (t <? u).

(** ** Go's [int] *)

Definition int_wrap (z : Z) : Z := (z + 2 ^ 63) `mod` 2 ^ 64 - 2 ^ 63.

Definition int_incr (count : Z) : Z := int_wrap (count + 1).

(** ** Stored values *)

Record expiringMapVal (V : Type) := mk_expiringMapVal { val : V; ttl : Time }.
Arguments mk_expiringMapVal {V} _ _.
Arguments val {V} _.
Arguments ttl {V} _.

(** ** Program state *)

Record State (K : Type) `{Countable K} (V : Type) := mk_State {
  items : gmap K (expiringMapVal V);
  reads : nat
}.
Arguments mk_State {K _ _ V} _ _.
Arguments items {K _ _ V} _.
Arguments reads {K _ _ V} _.

Section ExpiringMap.

Context {K : Type} `{Countable K} {V : Type}.

(** [*new(V)], the zero value of [V]. *)
Variable zero : V.

(** The schedule of the wall clock. *)
Variable clock : nat -> Time.

(** The order in which the backing store's [Range] walks its entries; Go
    leaves it unspecified. *)
Variable order : gmap K (expiringMapVal V) -> list (K * expiringMapVal V).

Abbreviation E := (expiringMapVal V).
Abbreviation St := (State K V).

(** ** The state monad of the methods *)

Definition M (A : Type) : Type := St -> A * St.

Definition ret {A} (a : A) : M A := fun s => (a, s).

Definition bind {A B} (c : M A) (k : A -> M B) : M B :=
  fun s => let r := c s in k r.1 r.2.

Notation "x <- c ;; k" := (bind c (fun x => k))
  (at level 100, c at next level, right associativity).
Notation "c ;;; k" := (bind c (fun _ => k))
  (at level 100, right associativity).

(** [time.Now()] *)
Definition time_Now : M Time :=
  fun s => (clock (reads s), mk_State (items s) (S (reads s))).

(** ** The backing store [cmap.CMap] *)

(** Modelled from the spec: [cmap.CMap.Get] of the package [go-cmap], which
    is imported and not part of the sources; [Get(key) -> (V, bool)], the
    pair rendered as an option. *)
Definition cmap_Get (key : K) : M (option E) :=
  fun s => (items s !! key, s).

(** Modelled from the spec: [cmap.CMap.Set] of [go-cmap];
    [Set(key, value) -> bool] (returns whether key pre-existed). *)
Definition cmap_Set (key : K) (e : E) : M bool :=
  fun s => (bool_decide (is_Some (items s !! key)),
            mk_State (<[key := e]> (items s)) (reads s)).

(** Modelled from the spec: [cmap.CMap.SetIfAbsent] of [go-cmap]; inserts
    only if no entry currently exists for the key and returns true iff the
    insertion happened. *)
Definition cmap_SetIfAbsent (key : K) (e : E) : M bool :=
  fun s => match items s !! key with
           | Some _ => (false, s)
           | None => (true, mk_State (<[key := e]> (items s)) (reads s))
           end.

(** Modelled from the spec: [cmap.CMap.LoadOrStore] of [go-cmap]; atomic
    get-or-insert: the existing entry when there is one, else the given one
    after storing it; the boolean tells whether the entry was loaded. *)
Definition cmap_LoadOrStore (key : K) (e : E) : M (E * bool) :=
  fun s => match items s !! key with
           | Some e' => ((e', true), s)
           | None => ((e, false), mk_State (<[key := e]> (items s)) (reads s))
           end.

(** Modelled from the spec: [cmap.CMap.Delete] of [go-cmap]; unconditional
    removal, returns whether an entry was present. *)
Definition cmap_Delete (key : K) : M bool :=
  fun s => (bool_decide (is_Some (items s !! key)),
            mk_State (delete key (items s)) (reads s)).

(** Modelled from the spec: [cmap.CMap.Remove] of [go-cmap]; the second
    removal operation, the same removal primitive as [Delete]. *)
Definition cmap_Remove (key : K) : M bool :=
  fun s => (bool_decide (is_Some (items s !! key)),
            mk_State (delete key (items s)) (reads s)).

(** The traversal loop of the backing store over the entries [es]: call the
    visitor on each, stop as soon as it returns false. *)
Fixpoint range_loop {A} (f : K -> E -> A -> M (bool * A))
    (es : list (K * E)) (a : A) : M A :=
  match es with
  | [] => ret a
  | (k, e) :: es' =>
      r <- f k e a ;;
      if r.1 then range_loop f es' r.2 else ret r.2
  end.

(** Modelled from the spec: [cmap.CMap.Range] of [go-cmap]; a traversal
    that is safe under mutation by the visitor: it walks the entries present
    when it starts, each key once, in the store's own order. *)
Definition cmap_Range {A} (f : K -> E -> A -> M (bool * A)) (a : A) : M A :=
  fun s => range_loop f (order (items s)) a s.

(** Modelled from the spec: [cmap.CMap.Clear] of [go-cmap]; removes all
    entries. *)
Definition cmap_Clear : M unit :=
  fun s => (tt, mk_State ∅ (reads s)).

(** ** The methods of [ExpiringMap] *)

(** [New]: a map over an empty backing store ([cmap.New]), in a program
    that has read the clock [n] times so far. *)
Definition New (n : nat) : St := mk_State ∅ n.

Definition SetIfAbsent (key : K) (value : V) (ttl_ : Time) : M bool :=
  cmap_SetIfAbsent key (mk_expiringMapVal value ttl_).

(** The method [Set]; the name is reserved in Rocq. *)
Definition Set_ (key : K) (value : V) (ttl_ : Time) : M bool :=
  cmap_Set key (mk_expiringMapVal value ttl_).

Definition GetOrSet (key : K) (value : V) (ttl_ : Time) : M V :=
  let newItem := mk_expiringMapVal value ttl_ in
  r <- cmap_LoadOrStore key newItem ;;
  let item := r.1 in
  now <- time_Now ;;
  if Before (ttl item) now then
    cmap_Set key newItem ;;; ret value
  else ret (val item).

Definition Has (key : K) : M bool :=
  r <- cmap_Get key ;;
  match r with
  | Some item =>
      now <- time_Now ;;
      if Before (ttl item) now then cmap_Delete key ;;; ret false
      else ret true
  | None => ret false
  end.

Definition Get (key : K) : M (V * bool) :=
  r <- cmap_Get key ;;
  match r with
  | Some item =>
      now <- time_Now ;;
      if Before (ttl item) now then cmap_Delete key ;;; ret (zero, false)
      else ret (val item, true)
  | None => ret (zero, false)
  end.

Definition Delete (key : K) : M bool := cmap_Delete key.

Definition Remove (key : K) : M bool := cmap_Remove key.

(** The closure that [Range] hands to the backing store. *)
Definition Range_visit {A} (now : Time) (f : K -> V -> A -> M (bool * A))
    (key : K) (value : E) (a : A) : M (bool * A) :=
  if Before (ttl value) now then cmap_Delete key ;;; ret (true, a)
  else f key (val value) a.

Definition Range {A} (f : K -> V -> A -> M (bool * A)) (a : A) : M A :=
  now <- time_Now ;;
  cmap_Range (Range_visit now f) a.

Definition Len : M Z :=
  Range (fun _ _ count => ret (true, int_incr count)) 0.

Definition IsEmpty : M bool :=
  n <- Len ;; ret (n =? 0).

Definition Clear : M unit := cmap_Clear.

(** The goroutines started by [Iter], [Keys] and [Values]: each runs [Range]
    with a visitor that sends on the channel and returns true.  The channel
    is the list of the values sent so far, oldest first. *)
Definition Iter_producer : M (list (K * V)) :=
  Range (fun key value ch => ret (true, ch ++ [(key, value)])) [].

Definition Keys_producer : M (list K) :=
  Range (fun key _ ch => ret (true, ch ++ [key])) [].

Definition Values_producer : M (list V) :=
  Range (fun _ value ch => ret (true, ch ++ [value])) [].

(** ** Vocabulary of the statements *)

(** An entry is live at [now] when its deadline is not before [now]. *)
Definition live (now : Time) (kv : K * E) : Prop := now ≤ ttl kv.2.

#[export] Instance live_dec now kv : Decision (live now kv).
Proof. unfold live. apply _. Defined.

(** What a visitor is shown of an entry: the key and the value. *)
Definition shown (kv : K * E) : K * V := (kv.1, val kv.2).

(** The store after the entries of [es] that are not live were deleted. *)
Fixpoint evict (now : Time) (es : list (K * E)) (m : gmap K E) : gmap K E :=
  match es with
  | [] => m
  | kv :: es' =>
      evict now es' (if Before (ttl kv.2) now then delete kv.1 m else m)
  end.

(** A visitor that, besides running [f], records what it was shown. *)
Definition logged {A} (f : K -> V -> A -> M (bool * A))
    (key : K) (value : V) (al : A * list (K * V))
    : M (bool * (A * list (K * V))) :=
  r <- f key value al.1 ;;
  ret (r.1, (r.2, al.2 ++ [(key, value)])).

(** A visitor that reads the clock at each visit and records the reading
    with what it was shown. *)
Definition stamping (key : K) (value : V) (ch : list (K * V * Time))
    : M (bool * list (K * V * Time)) :=
  t <- time_Now ;; ret (true, ch ++ [(key, value, t)]).

End ExpiringMap.

Arguments M K {_ _} V A.

(** ** Concrete stores, with natural numbers as keys and values *)

Module Sample.

Definition e_5 : expiringMapVal nat := mk_expiringMapVal 7%nat 5.

(** One entry, key 1, value 7, deadline 5. *)
Definition one : State nat nat := mk_State {[ 1%nat := e_5 ]} 0.

(** Three entries with deadlines 5, 10 and 20. *)
Definition three : State nat nat :=
  mk_State (<[ 1%nat := mk_expiringMapVal 7%nat 5 ]>
            (<[ 2%nat := mk_expiringMapVal 8%nat 10 ]>
             {[ 3%nat := mk_expiringMapVal 9%nat 20 ]})) 0.

Definition empty : State nat nat := New 0.

(** A clock that always reads [t]. *)
Definition fixed (t : Time) : nat -> Time := fun _ => t.

(** A clock that advances ten units between two readings, from 0. *)
Definition ticking : nat -> Time := fun n => 10 * Z.of_nat n.

(** A visitor that counts and never stops. *)
Definition counting (_ : nat) (_ : nat) (c : nat)
    : M nat nat (bool * nat) :=
  ret (true, S c).

(** A visitor that stops at its first call. *)
Definition stopping (_ : nat) (_ : nat) (c : nat)
    : M nat nat (bool * nat) :=
  ret (false, c).

End Sample.

(** ** The tests of [expiringmap_test.go]

    A test is a program over a map with [string] keys and [Animal] values;
    it starts from [New] and returns the messages passed to [t.Error], in
    order.  [time.Now().Add(d)] is the reading plus [d]; durations are in
    nanoseconds. *)

Module Tests.

Record Animal := mk_Animal { name : string }.

#[export] Instance Animal_eq_dec : EqDecision Animal.
Proof. solve_decision. Defined.

(** [Animal{}] *)
Definition Animal_zero : Animal := mk_Animal "".

(** [time.Minute] *)
Definition Minute : Z := 60000000000.

(** [if failed { t.Error(msg) }] *)
Definition check (failed : bool) (msg : string) (errs : list string)
    : list string :=
  if failed then errs ++ [msg] else errs.

Section Programs.

Variable clock : nat -> Time.
Variable order :
  gmap string (expiringMapVal Animal) -> list (string * expiringMapVal Animal).

Local Notation "x <- c ;; k" := (bind c (fun x => k))
  (at level 100, c at next level, right associativity).
Local Notation "c ;;; k" := (bind c (fun _ => k))
  (at level 100, right associativity).

Definition TestMapCreation : M string Animal (list string) :=
  n <- Len clock order ;;
  ret (check (negb (n =? 0)) "new map should be empty." []).

Definition TestInsert : M string Animal (list string) :=
  let elephant := mk_Animal "elephant" in
  let monkey := mk_Animal "monkey" in
  t1 <- time_Now clock ;;
  Set_ "elephant" elephant (t1 + Minute) ;;;
  t2 <- time_Now clock ;;
  Set_ "monkey" monkey (t2 + Minute) ;;;
  n <- Len clock order ;;
  ret (check (negb (n =? 2)) "map should contain exactly two elements." []).

Definition TestInsertAbsent : M string Animal (list string) :=
  let elephant := mk_Animal "elephant" in
  let monkey := mk_Animal "monkey" in
  t1 <- time_Now clock ;;
  SetIfAbsent "elephant" elephant (t1 + Minute) ;;;
  t2 <- time_Now clock ;;
  ok <- SetIfAbsent "elephant" monkey (t2 + Minute) ;;
  ret (check ok "map set a new value even the entry is already present" []).

Definition TestGetOrSet : M string Animal (list string) :=
  t1 <- time_Now clock ;;
  val_ <- GetOrSet clock "Money" (mk_Animal "elephant") (t1 + Minute) ;;
  let errs1 :=
    check (negb (bool_decide (name val_ = "elephant")))
          "default item was not inserted." [] in
  t2 <- time_Now clock ;;
  oldVal <- GetOrSet clock "Money" (mk_Animal "lion") (t2 + Minute) ;;
  let errs2 :=
    check (negb (bool_decide (name oldVal = "elephant")))
          "previous item was not returned" errs1 in
  n <- Len clock order ;;
  ret (check (negb (n =? 1)) "map should contain exactly one element." errs2).

Definition TestRemove : M string Animal (list string) :=
  let monkey := mk_Animal "monkey" in
  t1 <- time_Now clock ;;
  Set_ "monkey" monkey (t1 + Minute) ;;;
  Remove "monkey" ;;;
  n <- Len clock order ;;
  let errs1 :=
    check (negb (n =? 0))
          "Expecting count to be zero once item was removed." [] in
  r <- Get Animal_zero clock "monkey" ;;
  let errs2 :=
    check r.2 "Expecting ok to be false for missing items." errs1 in
  let errs3 :=
    check (negb (bool_decide (r.1 = Animal_zero)))
          "Expecting item to be nil after its removal." errs2 in
  Remove "noone" ;;;
  ret errs3.

Definition TestGet : M string Animal (list string) :=
  r <- Get Animal_zero clock "Money" ;;
  let errs1 :=
    check r.2 "ok should be false when item is missing from map." [] in
  let errs2 :=
    check (negb (bool_decide (r.1 = Animal_zero)))
          "Missing values should return as null." errs1 in
  let elephant := mk_Animal "elephant" in
  t1 <- time_Now clock ;;
  Set_ "elephant" elephant (t1 + Minute) ;;;
  r' <- Get Animal_zero clock "elephant" ;;
  let errs3 :=
    check (negb r'.2) "ok should be true for item stored within the map."
          errs2 in
  ret (check (negb (bool_decide (name r'.1 = "elephant")))
             "item was modified." errs3).

Definition TestHas : M string Animal (list string) :=
  b <- Has clock "Money" ;;
  let errs1 := check b "element shouldn't exists" [] in
  let elephant := mk_Animal "elephant" in
  t1 <- time_Now clock ;;
  Set_ "elephant" elephant (t1 + Minute) ;;;
  b' <- Has clock "elephant" ;;
  ret (check (negb b') "element exists, expecting Has to return True."
             errs1).

Definition TestIsEmpty : M string Animal (list string) :=
  b <- IsEmpty clock order ;;
  let errs1 := check (negb b) "new map should be empty" [] in
  t1 <- time_Now clock ;;
  Set_ "elephant" (mk_Animal "elephant") (t1 + Minute) ;;;
  b' <- IsEmpty clock order ;;
  ret (check b' "map shouldn't be empty." errs1).

Definition TestExpire : M string Animal (list string) :=
  t1 <- time_Now clock ;;
  Set_ "elephant" (mk_Animal "elephant") (t1 + - Minute) ;;;
  b <- IsEmpty clock order ;;
  ret (check (negb b) "map should be empty." []).

End Programs.

End Tests.

(** * Properties *)

Section Proofs.

Context {K : Type} `{Countable K} {V : Type}.
Variable zero : V.
Variable clock : nat -> Time.
Variable order : gmap K (expiringMapVal V) -> list (K * expiringMapVal V).

Implicit Types (s : State K V) (key k : K) (value v : V) (e : expiringMapVal V).
Implicit Types (now d : Time) (m : gmap K (expiringMapVal V)).
Implicit Types (es vis rest : list (K * expiringMapVal V)).

(** ** Time and [int] *)

Lemma Before_lt t u : Before t u = true <-> t < u.
Proof. unfold Before. apply Z.ltb_lt. Qed.

Lemma Before_ge t u : Before t u = false <-> u ≤ t.
Proof. unfold Before. apply Z.ltb_ge. Qed.

Lemma Before_live now (kv : K * expiringMapVal V) :
  Before (ttl kv.2) now = false <-> live now kv.
Proof. apply Before_ge. Qed.

Lemma int_incr_small c : 0 ≤ c < 2 ^ 63 - 1 -> int_incr c = c + 1.
Proof.
  intros Hc. unfold int_incr, int_wrap.
  rewrite Z.mod_small by lia. lia.
Qed.

(** ** The single-key methods, case by case *)

Lemma Has_absent key s :
  items s !! key = None -> Has clock key s = (false, s).
Proof. intros Hk. unfold Has, bind, cmap_Get. simpl. by rewrite Hk. Qed.

Lemma Has_present key s e :
  items s !! key = Some e ->
  Has clock key s =
    if Before (ttl e) (clock (reads s))
    then (false, mk_State (delete key (items s)) (S (reads s)))
    else (true, mk_State (items s) (S (reads s))).
Proof.
  intros Hk. unfold Has, bind, cmap_Get. simpl. rewrite Hk. simpl.
  by destruct (Before _ _).
Qed.

Lemma Get_absent key s :
  items s !! key = None -> Get zero clock key s = ((zero, false), s).
Proof. intros Hk. unfold Get, bind, cmap_Get. simpl. by rewrite Hk. Qed.

Lemma Get_present key s e :
  items s !! key = Some e ->
  Get zero clock key s =
    if Before (ttl e) (clock (reads s))
    then ((zero, false), mk_State (delete key (items s)) (S (reads s)))
    else ((val e, true), mk_State (items s) (S (reads s))).
Proof.
  intros Hk. unfold Get, bind, cmap_Get. simpl. rewrite Hk. simpl.
  by destruct (Before _ _).
Qed.

Lemma GetOrSet_absent key value d s :
  items s !! key = None ->
  GetOrSet clock key value d s =
    (value, mk_State (<[key := mk_expiringMapVal value d]> (items s))
                     (S (reads s))).
Proof.
  intros Hk. unfold GetOrSet, bind, cmap_LoadOrStore. simpl. rewrite Hk. simpl.
  destruct (Before _ _); simpl; [|done].
  by rewrite insert_insert_eq.
Qed.

Lemma GetOrSet_present key value d s e :
  items s !! key = Some e ->
  GetOrSet clock key value d s =
    if Before (ttl e) (clock (reads s))
    then (value, mk_State (<[key := mk_expiringMapVal value d]> (items s))
                          (S (reads s)))
    else (val e, mk_State (items s) (S (reads s))).
Proof.
  intros Hk. unfold GetOrSet, bind, cmap_LoadOrStore. simpl. rewrite Hk. simpl.
  by destruct (Before _ _).
Qed.

(** ** Eviction *)

Lemma evict_lookup_None now es m k :
  m !! k = None -> evict now es m !! k = None.
Proof.
  revert m. induction es as [|kv es IH]; intros m Hm; [done|].
  simpl. apply IH. destruct (Before _ _); [|done].
  rewrite lookup_delete. case_decide; done.
Qed.

Lemma evict_lookup_expired now es m k e :
  (k, e) ∈ es -> ttl e < now -> evict now es m !! k = None.
Proof.
  revert m. induction es as [|kv es IH]; intros m Hin Hlt.
  - by apply elem_of_nil in Hin.
  - apply elem_of_cons in Hin as [<-|Hin]; simpl.
    + apply Before_lt in Hlt. rewrite Hlt.
      apply evict_lookup_None, lookup_delete_eq.
    + by apply IH.
Qed.

Lemma evict_lookup_keep now es m k :
  (forall e, (k, e) ∈ es -> now ≤ ttl e) -> evict now es m !! k = m !! k.
Proof.
  revert m. induction es as [|[k' e'] es IH]; intros m Hall; [done|].
  simpl. rewrite IH.
  - destruct (Before (ttl e') now) eqn:Hb; [|done].
    apply Before_lt in Hb.
    destruct (decide (k' = k)) as [->|Hne].
    + specialize (Hall e' ltac:(left)). lia.
    + by rewrite lookup_delete_ne.
  - intros e Hin. apply Hall. by right.
Qed.

Lemma evict_app now vis rest m :
  evict now (vis ++ rest) m = evict now rest (evict now vis m).
Proof. revert m. induction vis as [|kv vis IH]; intros m; simpl; auto. Qed.

(** After a walk over all its entries, in any order, the store holds its
    live entries and nothing else. *)
Lemma evict_all now es m :
  es ≡ₚ map_to_list m -> evict now es m = filter (live now) m.
Proof.
  intros Hperm. apply map_eq. intros k.
  assert (Hel : forall e, (k, e) ∈ es <-> m !! k = Some e).
  { intros e. rewrite Hperm. apply elem_of_map_to_list. }
  destruct (m !! k) as [e|] eqn:Hk.
  - destruct (decide (ttl e < now)) as [Hlt|Hge].
    + rewrite (evict_lookup_expired now es m k e); [|by apply Hel|done].
      symmetry. apply map_lookup_filter_None. right. intros e' He'.
      unfold live. simpl. assert (e' = e) by congruence. subst. lia.
    + rewrite evict_lookup_keep.
      * rewrite Hk. symmetry. apply map_lookup_filter_Some. split; [done|].
        unfold live. simpl. lia.
      * intros e' He'. apply Hel in He'. assert (e' = e) by congruence.
        subst. lia.
  - rewrite evict_lookup_None by done. symmetry.
    apply map_lookup_filter_None. by left.
Qed.

Lemma filter_map_to_list (P : K * expiringMapVal V -> Prop)
    `{!forall x, Decision (P x)} m :
  filter P (map_to_list m) ≡ₚ map_to_list (filter P m).
Proof.
  apply NoDup_Permutation.
  - apply NoDup_filter, NoDup_map_to_list.
  - apply NoDup_map_to_list.
  - intros [k e]. rewrite list_elem_of_filter, !elem_of_map_to_list.
    rewrite map_lookup_filter_Some. tauto.
Qed.

Lemma live_count now es m :
  es ≡ₚ map_to_list m ->
  length (filter (live now) es) = size (filter (live now) m).
Proof.
  intros Hperm. rewrite Hperm, filter_map_to_list.
  apply length_map_to_list.
Qed.

Lemma order_length es m : es ≡ₚ map_to_list m -> length es = size m.
Proof. intros ->. apply length_map_to_list. Qed.

(** ** The traversal loop under [Range]'s closure *)

Lemma range_loop_cons {A} (f : K -> expiringMapVal V -> A -> M K V (bool * A))
    k e es a s :
  range_loop f ((k, e) :: es) a s =
    if (f k e a s).1.1 then range_loop f es (f k e a s).1.2 (f k e a s).2
    else ((f k e a s).1.2, (f k e a s).2).
Proof. simpl. unfold bind. by destruct (f k e a s) as [[[] a'] s']. Qed.

Lemma Range_visit_expired now {A} (f : K -> V -> A -> M K V (bool * A))
    k e a s :
  Before (ttl e) now = true ->
  Range_visit now f k e a s =
    ((true, a), mk_State (delete k (items s)) (reads s)).
Proof. intros Hb. unfold Range_visit. by rewrite Hb. Qed.

Lemma Range_visit_live now {A} (f : K -> V -> A -> M K V (bool * A))
    k e a s :
  Before (ttl e) now = false -> Range_visit now f k e a s = f k (val e) a s.
Proof. intros Hb. unfold Range_visit. by rewrite Hb. Qed.

(** With a visitor that only updates its captured variables and never
    stops, the loop is a fold over the live entries, and every entry that is
    not live is deleted. *)
Lemma range_loop_pure now {A} (g : K -> V -> A -> A) es a s :
  range_loop (Range_visit now (fun k v a => ret (true, g k v a))) es a s =
  (foldl (fun a kv => g kv.1 (val kv.2) a) a (filter (live now) es),
   mk_State (evict now es (items s)) (reads s)).
Proof.
  revert a s. induction es as [|[k e] es IH]; intros a s.
  - by destruct s.
  - simpl. unfold bind, Range_visit. simpl.
    destruct (Before (ttl e) now) eqn:Hb; simpl.
    + rewrite IH. simpl. rewrite filter_cons_False; [done|].
      intros Hl. apply Before_live in Hl. simpl in Hl. congruence.
    + rewrite IH. rewrite filter_cons_True; [done|].
      by apply Before_live.
Qed.

Lemma Range_pure (clk : nat -> Time) {A} (g : K -> V -> A -> A) a s :
  Range clk order (fun k v a => ret (true, g k v a)) a s =
  (foldl (fun a kv => g kv.1 (val kv.2) a) a
         (filter (live (clk (reads s))) (order (items s))),
   mk_State (evict (clk (reads s)) (order (items s)) (items s))
            (S (reads s))).
Proof.
  unfold Range, bind, cmap_Range, time_Now. simpl.
  by rewrite range_loop_pure.
Qed.

Lemma foldl_snoc {B} (h : K * expiringMapVal V -> B) es (ch : list B) :
  foldl (fun ch kv => ch ++ [h kv]) ch es = ch ++ (h <$> es).
Proof.
  revert ch. induction es as [|kv es IH]; intros ch; simpl.
  - by rewrite app_nil_r.
  - rewrite IH. by rewrite <- app_assoc.
Qed.

Lemma foldl_int_incr (es : list (K * expiringMapVal V)) c :
  0 ≤ c -> c + Z.of_nat (length es) < 2 ^ 63 ->
  foldl (fun count _ => int_incr count) c es = c + Z.of_nat (length es).
Proof.
  revert c. induction es as [|kv es IH]; intros c Hc Hb; simpl in *.
  - lia.
  - rewrite int_incr_small by lia. rewrite IH by lia. lia.
Qed.

(** The recording visitor changes neither the result nor the state. *)
Lemma range_loop_erase now {A} (f : K -> V -> A -> M K V (bool * A))
    es a l s :
  ((range_loop (Range_visit now (logged f)) es (a, l) s).1.1,
   (range_loop (Range_visit now (logged f)) es (a, l) s).2)
  = range_loop (Range_visit now f) es a s.
Proof.
  revert a l s. induction es as [|[k e] es IH]; intros a l s; [done|].
  rewrite !range_loop_cons.
  destruct (Before (ttl e) now) eqn:Hb.
  - rewrite !Range_visit_expired by done. simpl. apply IH.
  - rewrite !Range_visit_live by done.
    unfold logged at 1 3 4 5. unfold bind, ret. simpl.
    destruct (f k (val e) a s) as [[b a'] s']. simpl.
    destruct b; [apply IH|done].
Qed.

(** What the loop visits is a prefix [vis] of the entries; the visitor is
    shown the live entries of [vis], in order; the entries of [vis] that are
    not live are deleted; and the loop stops before the end only when the
    visitor returned false, on a live entry. *)
Lemma range_loop_logged now {A} (f : K -> V -> A -> M K V (bool * A)) :
  (forall k v a s, items (f k v a s).2 = items s) ->
  forall es a l s,
  exists vis rest,
    es = vis ++ rest /\
    (range_loop (Range_visit now (logged f)) es (a, l) s).1.2
      = l ++ (shown <$> filter (live now) vis) /\
    items (range_loop (Range_visit now (logged f)) es (a, l) s).2
      = evict now vis (items s) /\
    (rest = [] \/
     exists vis' kv a0 s0,
       vis = vis' ++ [kv] /\ live now kv /\
       (f kv.1 (val kv.2) a0 s0).1.1 = false).
Proof.
  intros Hf es. induction es as [|[k e] es IH]; intros a l s.
  - exists [], []. simpl. rewrite app_nil_r. auto.
  - rewrite range_loop_cons.
    destruct (Before (ttl e) now) eqn:Hb.
    + rewrite !Range_visit_expired by done. simpl.
      destruct (IH a l (mk_State (delete k (items s)) (reads s)))
        as (vis & rest & -> & Hlog & Hit & Hstop).
      exists ((k, e) :: vis), rest. split; [done|].
      rewrite Hlog, Hit. simpl. rewrite Hb.
      rewrite filter_cons_False.
      2:{ intros Hl. apply Before_live in Hl. simpl in Hl. congruence. }
      repeat split; [done..|].
      destruct Hstop as [->|(vis' & kv & a0 & s0 & -> & Hl & Hfalse)];
        [by left|right].
      by exists ((k, e) :: vis'), kv, a0, s0.
    + assert (Hlive : live now (k, e)) by by apply Before_live.
      rewrite !Range_visit_live by done.
      unfold logged at 1 3 4 5. unfold bind, ret. simpl.
      specialize (Hf k (val e) a s).
      destruct (f k (val e) a s) as [[b a'] s'] eqn:Hr. simpl in *.
      destruct b.
      * destruct (IH a' (l ++ [(k, val e)]) s')
          as (vis & rest & -> & Hlog & Hit & Hstop).
        exists ((k, e) :: vis), rest. split; [done|].
        rewrite Hlog, Hit. simpl. rewrite Hb, Hf.
        rewrite filter_cons_True by done.
        rewrite fmap_cons, <- app_assoc. repeat split; [done..|].
        destruct Hstop as [->|(vis' & kv & a0 & s0 & -> & Hl & Hfalse)];
          [by left|right].
        by exists ((k, e) :: vis'), kv, a0, s0.
      * exists [(k, e)], es. split; [done|]. simpl. rewrite Hb.
        rewrite filter_cons_True by done. repeat split; [done..|].
        right. exists [], (k, e), a, s. simpl. by rewrite Hr.
Qed.

(** A visitor that does not read the clock leaves the number of readings
    as it is. *)
Lemma range_loop_reads now {A} (f : K -> V -> A -> M K V (bool * A)) :
  (forall k v a s, reads (f k v a s).2 = reads s) ->
  forall es a s, reads (range_loop (Range_visit now f) es a s).2 = reads s.
Proof.
  intros Hf es. induction es as [|[k e] es IH]; intros a s; [done|].
  rewrite range_loop_cons.
  destruct (Before (ttl e) now) eqn:Hb.
  - rewrite !Range_visit_expired by done. simpl. by rewrite IH.
  - rewrite !Range_visit_live by done.
    specialize (Hf k (val e) a s).
    destruct (f k (val e) a s) as [[b a'] s']. simpl in *.
    destruct b; simpl; [by rewrite IH|done].
Qed.

(** The visitor that stamps each visit with a fresh reading is shown every
    entry that was live at [now], at whatever time the visit takes place. *)
Lemma range_loop_stamping now es ch s :
  range_loop (Range_visit now (stamping clock)) es ch s =
  (ch ++ imap (fun i kv => (kv.1, val kv.2, clock (reads s + i)%nat))
              (filter (live now) es),
   mk_State (evict now es (items s))
            (reads s + length (filter (live now) es))%nat).
Proof.
  revert ch s. induction es as [|[k e] es IH]; intros ch s.
  - simpl. rewrite app_nil_r, Nat.add_0_r. by destruct s.
  - rewrite range_loop_cons.
    destruct (Before (ttl e) now) eqn:Hb.
    + rewrite !Range_visit_expired by done. simpl. rewrite IH. simpl.
      rewrite Hb. rewrite filter_cons_False; [done|].
      intros Hl. apply Before_live in Hl. simpl in Hl. congruence.
    + rewrite !Range_visit_live by done.
      unfold stamping, bind, time_Now, ret. simpl. rewrite IH. simpl.
      rewrite Hb. rewrite (filter_cons_True (live now)) by by apply Before_live.
      simpl. rewrite <- app_assoc. simpl. rewrite Nat.add_0_r.
      f_equal; [|f_equal; lia].
      do 2 f_equal. apply imap_ext. intros i kv _. simpl.
      do 2 f_equal. lia.
Qed.

Lemma Range_logged {A} (f : K -> V -> A -> M K V (bool * A)) a s :
  (forall k v a s, items (f k v a s).2 = items s) ->
  let now := clock (reads s) in
  exists vis rest,
    order (items s) = vis ++ rest /\
    (Range clock order (logged f) (a, []) s).1.2
      = shown <$> filter (live now) vis /\
    items (Range clock order (logged f) (a, []) s).2
      = evict now vis (items s) /\
    (rest = [] \/
     exists vis' kv a0 s0,
       vis = vis' ++ [kv] /\ live now kv /\
       (f kv.1 (val kv.2) a0 s0).1.1 = false).
Proof.
  intros Hf now. unfold Range, bind, cmap_Range, time_Now. simpl. fold now.
  destruct (range_loop_logged now f Hf (order (items s)) a []
              (mk_State (items s) (S (reads s))))
    as (vis & rest & Heq & Hlog & Hit & Hstop).
  exists vis, rest. by rewrite Hlog, Hit.
Qed.

Lemma Range_erase {A} (f : K -> V -> A -> M K V (bool * A)) a l s :
  ((Range clock order (logged f) (a, l) s).1.1,
   (Range clock order (logged f) (a, l) s).2)
  = Range clock order f a s.
Proof.
  unfold Range, bind, cmap_Range, time_Now. simpl. apply range_loop_erase.
Qed.

Lemma Range_reads {A} (f : K -> V -> A -> M K V (bool * A)) a s :
  (forall k v a s, reads (f k v a s).2 = reads s) ->
  reads (Range clock order f a s).2 = S (reads s).
Proof.
  intros Hf. unfold Range, bind, cmap_Range, time_Now. simpl.
  by rewrite range_loop_reads.
Qed.

(** ** The producers, as folds over the live entries *)

Lemma Iter_producer_eq (clk : nat -> Time) s :
  Iter_producer clk order s =
  (shown <$> filter (live (clk (reads s))) (order (items s)),
   mk_State (evict (clk (reads s)) (order (items s)) (items s))
            (S (reads s))).
Proof.
  unfold Iter_producer.
  rewrite (Range_pure clk (fun k v ch => ch ++ [(k, v)])).
  f_equal. exact (foldl_snoc shown _ []).
Qed.

Lemma Keys_producer_eq (clk : nat -> Time) s :
  Keys_producer clk order s =
  ((filter (live (clk (reads s))) (order (items s))).*1,
   mk_State (evict (clk (reads s)) (order (items s)) (items s))
            (S (reads s))).
Proof.
  unfold Keys_producer.
  rewrite (Range_pure clk (fun k (_ : V) ch => ch ++ [k])).
  f_equal. exact (foldl_snoc fst _ []).
Qed.

Lemma Values_producer_eq (clk : nat -> Time) s :
  Values_producer clk order s =
  ((fun kv => val kv.2) <$> filter (live (clk (reads s))) (order (items s)),
   mk_State (evict (clk (reads s)) (order (items s)) (items s))
            (S (reads s))).
Proof.
  unfold Values_producer.
  rewrite (Range_pure clk (fun (_ : K) v ch => ch ++ [v])).
  f_equal.
  exact (foldl_snoc (fun kv : K * expiringMapVal V => val kv.2) _ []).
Qed.

Lemma live_filter_empty now m :
  filter (live now) m = ∅ <-> forall k e, m !! k = Some e -> ttl e < now.
Proof.
  rewrite map_empty_filter. unfold map_Forall, live. simpl.
  split; intros Hall k e Hk; specialize (Hall k e Hk); lia.
Qed.

(** ** [Range] and [Len] on a store walked in any order *)

Section Order.

Hypothesis order_perm : forall m, order m ≡ₚ map_to_list m.

Lemma order_elem m k e : (k, e) ∈ order m <-> m !! k = Some e.
Proof. rewrite order_perm. apply elem_of_map_to_list. Qed.

Lemma order_empty : order ∅ = [].
Proof.
  apply Permutation_nil_r. rewrite order_perm. by rewrite map_to_list_empty.
Qed.

Lemma shown_live_elem now m k v :
  (k, v) ∈ shown <$> filter (live now) (order m) <->
  exists e, m !! k = Some e /\ v = val e /\ now ≤ ttl e.
Proof.
  rewrite list_elem_of_fmap. split.
  - intros ([k' e] & Heq & Hin). apply list_elem_of_filter in Hin as [Hl Hin].
    unfold shown in Heq. simpl in Heq. injection Heq as -> ->.
    exists e. by rewrite <- order_elem.
  - intros (e & Hk & -> & Hl). exists (k, e). split; [done|].
    apply list_elem_of_filter. split; [done|]. by apply order_elem.
Qed.

Lemma Len_spec (clk : nat -> Time) s :
  Z.of_nat (size (items s)) < 2 ^ 63 ->
  Len clk order s =
    (Z.of_nat (size (filter (live (clk (reads s))) (items s))),
     mk_State (filter (live (clk (reads s))) (items s)) (S (reads s))).
Proof.
  intros Hsz. unfold Len. rewrite (Range_pure clk (fun _ _ c => int_incr c)).
  rewrite evict_all by apply order_perm.
  rewrite foldl_int_incr.
  - by rewrite (live_count _ _ (items s)) by apply order_perm.
  - done.
  - pose proof (length_filter (live (clk (reads s))) (order (items s))).
    pose proof (order_length _ _ (order_perm (items s))). lia.
Qed.

(** ** The claims *)

(** C1, as amended.  The expiry test of [Has], [Get] and [Range] is
    [ttl.Before(now)]: an entry is expired, reported absent and deleted
    exactly when its deadline is strictly before the time read during the
    call; an entry whose deadline is the time read, or later, is live: it is
    reported present, returned, shown to the visitor of [Range], and stays
    in the store. *)
Theorem C1_expired_iff_deadline_before_now key e s :
  items s !! key = Some e ->
  let now := clock (reads s) in
  let collect := fun (k : K) (v : V) (ch : list (K * V)) =>
                   ret (K := K) (true, ch ++ [(k, v)]) in
  (Has clock key s).1 = bool_decide (now ≤ ttl e) /\
  items (Has clock key s).2 !! key
    = (if bool_decide (now ≤ ttl e) then Some e else None) /\
  (Get zero clock key s).1
    = (if bool_decide (now ≤ ttl e) then (val e, true) else (zero, false)) /\
  items (Get zero clock key s).2 !! key
    = (if bool_decide (now ≤ ttl e) then Some e else None) /\
  ((key, val e) ∈ (Range clock order collect [] s).1 <-> now ≤ ttl e) /\
  items (Range clock order collect [] s).2 !! key
    = (if bool_decide (now ≤ ttl e) then Some e else None).
Proof.
  intros Hk now collect.
  rewrite (Has_present key s e Hk), (Get_present key s e Hk).
  fold now. unfold collect.
  rewrite (Range_pure clock (fun k v ch => ch ++ [(k, v)])). fold now.
  rewrite (foldl_snoc shown). simpl.
  rewrite evict_all by apply order_perm.
  destruct (Before (ttl e) now) eqn:Hb.
  - apply Before_lt in Hb.
    rewrite bool_decide_eq_false_2 by lia. simpl.
    rewrite lookup_delete_eq. repeat split; try done.
    + intros (e' & He' & _ & Hl)%shown_live_elem.
      assert (e' = e) by congruence. subst. lia.
    + lia.
    + apply map_lookup_filter_None. right. intros e' He'.
      assert (e' = e) by congruence. subst. unfold live. simpl. lia.
  - apply Before_ge in Hb.
    rewrite bool_decide_eq_true_2 by lia. simpl.
    repeat split; try done.
    + intros _. apply shown_live_elem. by exists e.
    + by apply map_lookup_filter_Some.
Qed.

(** C2.  [SetIfAbsent] inserts and returns true exactly when the store holds
    no entry for the key; it reads no clock and looks at no deadline: an
    entry that is present blocks the insertion whatever its deadline, and is
    left in place; a second [SetIfAbsent] on the same key returns false and
    changes nothing. *)
Theorem C2_SetIfAbsent_ignores_deadlines key v1 d1 v2 d2 s :
  SetIfAbsent key v1 d1 s =
    match items s !! key with
    | None =>
        (true, mk_State (<[key := mk_expiringMapVal v1 d1]> (items s))
                        (reads s))
    | Some _ => (false, s)
    end /\
  ((SetIfAbsent key v1 d1 s).1 = true <-> items s !! key = None) /\
  (forall e, items s !! key = Some e -> ttl e < clock (reads s) ->
     SetIfAbsent key v1 d1 s = (false, s)) /\
  SetIfAbsent key v2 d2 (SetIfAbsent key v1 d1 s).2
    = (false, (SetIfAbsent key v1 d1 s).2) /\
  (items s !! key = None ->
     items (SetIfAbsent key v2 d2 (SetIfAbsent key v1 d1 s).2).2 !! key
       = Some (mk_expiringMapVal v1 d1)).
Proof.
  unfold SetIfAbsent, cmap_SetIfAbsent.
  destruct (items s !! key) as [e|] eqn:Hk; simpl;
    rewrite ?Hk, ?lookup_insert_eq; simpl; rewrite ?lookup_insert_eq;
    repeat split; done.
Qed.

(** C3.  [GetOrSet] on a key without entry stores the given entry and
    returns the given value; on an entry whose deadline is before the time
    read during the call it overwrites the entry and returns the given
    value; on any other entry it returns the stored value and leaves the
    entry as it is.  A [GetOrSet] with a deadline that is past at the next
    call, on a key that holds no live entry, followed by a second
    [GetOrSet], makes the second call return its own value and store its
    own entry. *)
Theorem C3_GetOrSet_overwrites_expired key value d s :
  let now := clock (reads s) in
  let r := GetOrSet clock key value d s in
  (items s !! key = None ->
     r.1 = value /\
     items r.2 = <[key := mk_expiringMapVal value d]> (items s)) /\
  (forall e, items s !! key = Some e -> ttl e < now ->
     r.1 = value /\
     items r.2 = <[key := mk_expiringMapVal value d]> (items s)) /\
  (forall e, items s !! key = Some e -> now ≤ ttl e ->
     r.1 = val e /\ items r.2 = items s) /\
  (forall v2 d_future,
     (forall e, items s !! key = Some e -> ttl e < now) ->
     d < clock (reads r.2) ->
     (GetOrSet clock key v2 d_future r.2).1 = v2 /\
     items (GetOrSet clock key v2 d_future r.2).2 !! key
       = Some (mk_expiringMapVal v2 d_future)).
Proof.
  intros now r.
  assert (Hnext : forall v2 d_future s1,
             items s1 !! key = Some (mk_expiringMapVal value d) ->
             d < clock (reads s1) ->
             (GetOrSet clock key v2 d_future s1).1 = v2 /\
             items (GetOrSet clock key v2 d_future s1).2 !! key
               = Some (mk_expiringMapVal v2 d_future)).
  { intros v2 d_future s1 Hs1 Hd.
    rewrite (GetOrSet_present key v2 d_future s1 _ Hs1). simpl.
    apply Before_lt in Hd. rewrite Hd. simpl.
    by rewrite lookup_insert_eq. }
  assert (Hnone : items s !! key = None ->
            r = (value, mk_State (<[key := mk_expiringMapVal value d]> (items s))
                                 (S (reads s)))).
  { intros Hk. apply (GetOrSet_absent key value d s Hk). }
  assert (Hold : forall e, items s !! key = Some e -> ttl e < now ->
            r = (value, mk_State (<[key := mk_expiringMapVal value d]> (items s))
                                 (S (reads s)))).
  { intros e Hk Hlt. unfold r. rewrite (GetOrSet_present key value d s e Hk).
    apply Before_lt in Hlt. fold now. by rewrite Hlt. }
  assert (Hlive : forall e, items s !! key = Some e -> now ≤ ttl e ->
            r = (val e, mk_State (items s) (S (reads s)))).
  { intros e Hk Hge. unfold r. rewrite (GetOrSet_present key value d s e Hk).
    apply Before_ge in Hge. fold now. by rewrite Hge. }
  split; [|split; [|split]].
  - intros Hk. by rewrite (Hnone Hk).
  - intros e Hk Hlt. by rewrite (Hold e Hk Hlt).
  - intros e Hk Hge. by rewrite (Hlive e Hk Hge).
  - intros v2 d_future Hstale Hd. apply Hnext; [|done].
    destruct (items s !! key) as [e|] eqn:Hk.
    + rewrite (Hold e eq_refl (Hstale e eq_refl)). simpl.
      apply lookup_insert_eq.
    + rewrite (Hnone eq_refl). simpl. apply lookup_insert_eq.
Qed.

(** C4.  After [Set(key, value, deadline)], a [Get(key)] made while the
    deadline is not before the time it reads returns the value and true;
    a [Get(key)] made when the deadline is before the time it reads returns
    the zero value and false and deletes the entry, and the [Len] that
    follows counts the live entries of the store without that key. *)
Theorem C4_Set_then_Get key value d s :
  let s1 := (Set_ key value d s).2 in
  let now := clock (reads s1) in
  let r := Get zero clock key s1 in
  items s1 !! key = Some (mk_expiringMapVal value d) /\
  (now ≤ d -> r.1 = (value, true) /\ items r.2 = items s1) /\
  (d < now ->
     r.1 = (zero, false) /\
     items r.2 !! key = None /\
     items r.2 = delete key (items s) /\
     (Z.of_nat (size (items s)) < 2 ^ 63 ->
      (Len clock order r.2).1 =
        Z.of_nat (size (filter (live (clock (reads r.2)))
                               (delete key (items s)))) /\
      items (Len clock order r.2).2 !! key = None)).
Proof.
  intros s1 now r.
  assert (Hs1 : items s1 !! key = Some (mk_expiringMapVal value d)).
  { unfold s1, Set_, cmap_Set. simpl. apply lookup_insert_eq. }
  assert (Hdel : delete key (items s1) = delete key (items s)).
  { unfold s1, Set_, cmap_Set. simpl. apply delete_insert_eq. }
  split; [done|]. unfold r. rewrite (Get_present key s1 _ Hs1). fold now.
  cbn [ttl val]. split.
  - intros Hge. apply Before_ge in Hge. by rewrite Hge.
  - intros Hlt. apply Before_lt in Hlt. rewrite Hlt. cbn [fst snd items reads].
    rewrite Hdel, lookup_delete_eq. repeat split; [done..| |].
    + rewrite Len_spec; cbn [fst snd items reads]; [done|].
      pose proof (map_subseteq_size (delete key (items s)) (items s)
                    (delete_subseteq _ _)). lia.
    + rewrite Len_spec; cbn [fst snd items reads].
      * apply map_lookup_filter_None. left. apply lookup_delete_eq.
      * pose proof (map_subseteq_size (delete key (items s)) (items s)
                      (delete_subseteq _ _)). lia.
Qed.

(** C5, as amended.  [Range] shows its visitor, and [Len] counts, only
    entries whose deadline is not before the time read at the start of the
    call, so an entry whose deadline is that very time is shown and counted.
    For a visitor that does not write to the map: the visitor is shown the
    live entries of the part of the store that the traversal went through,
    each entry met there that is not live is deleted and nothing else is,
    and the traversal stops early only when the visitor returns false, on a
    live entry.  [Len] returns the number of live entries and leaves the
    live entries in the store. *)
Theorem C5_Range_shows_live_entries {A} (f : K -> V -> A -> M K V (bool * A))
    a s :
  (forall k v a s, items (f k v a s).2 = items s) ->
  let now := clock (reads s) in
  let r := Range clock order (logged f) (a, []) s in
  (r.1.1, r.2) = Range clock order f a s /\
  (forall k v, (k, v) ∈ r.1.2 ->
     exists e, items s !! k = Some e /\ v = val e /\ now ≤ ttl e) /\
  (exists vis rest,
     order (items s) = vis ++ rest /\
     r.1.2 = shown <$> filter (live now) vis /\
     (forall k e, (k, e) ∈ vis -> ttl e < now -> items r.2 !! k = None) /\
     (forall k, (forall e, (k, e) ∈ vis -> now ≤ ttl e) ->
        items r.2 !! k = items s !! k) /\
     (rest = [] \/
      exists vis' kv a0 s0,
        vis = vis' ++ [kv] /\ live now kv /\
        (f kv.1 (val kv.2) a0 s0).1.1 = false)) /\
  (Z.of_nat (size (items s)) < 2 ^ 63 ->
   Len clock order s =
     (Z.of_nat (size (filter (live now) (items s))),
      mk_State (filter (live now) (items s)) (S (reads s)))).
Proof.
  intros Hf now r. split; [apply Range_erase|].
  destruct (Range_logged f a s Hf) as (vis & rest & Heq & Hlog & Hit & Hstop).
  fold now in Hlog, Hit, Hstop. fold r in Hlog, Hit.
  split; [|split].
  - intros k v Hin. rewrite Hlog in Hin.
    apply (shown_live_elem now (items s) k v). rewrite Heq, filter_app, fmap_app.
    apply elem_of_app. by left.
  - exists vis, rest. rewrite Hit. repeat split; [done..| | |done].
    + intros k e. apply evict_lookup_expired.
    + intros k. apply evict_lookup_keep.
  - apply Len_spec.
Qed.

(** C6.  Without writes in between, the count that [Len] reports does not
    grow as time advances: on the same store a later call time gives a
    count that is at most that of an earlier call time; of two calls in a
    row, the second, reading a time that is not earlier, reports at most
    what the first reported and finds its entries among those the first
    left; and a key that [Has] reported absent is absent for the [Len] and
    the [Has] that follow. *)
Theorem C6_Len_shrinks_over_time s :
  Z.of_nat (size (items s)) < 2 ^ 63 ->
  (forall t1 t2, t1 ≤ t2 ->
     (Len (fun _ => t2) order s).1 ≤ (Len (fun _ => t1) order s).1) /\
  (clock (reads s) ≤ clock (S (reads s)) ->
   let r1 := Len clock order s in
   let r2 := Len clock order r1.2 in
   r2.1 ≤ r1.1 /\ items r2.2 ⊆ items r1.2 /\ items r1.2 ⊆ items s) /\
  (forall key,
     (Has clock key s).1 = false ->
     let s1 := (Has clock key s).2 in
     let s2 := (Len clock order s1).2 in
     items s1 !! key = None /\ items s2 !! key = None /\
     (Has clock key s2).1 = false).
Proof.
  intros Hsz. split; [|split].
  - intros t1 t2 Ht. rewrite !Len_spec by done. simpl.
    apply inj_le, map_subseteq_size, map_filter_subseteq_ext.
    intros k e _. unfold live. simpl. lia.
  - intros Hmono r1 r2. unfold r2, r1. rewrite (Len_spec clock s Hsz).
    simpl.
    assert (Hsub : filter (live (clock (reads s))) (items s) ⊆ items s)
      by apply map_filter_subseteq.
    rewrite Len_spec; simpl.
    2:{ pose proof (map_subseteq_size _ _ Hsub). lia. }
    repeat split; [|apply map_filter_subseteq|done].
    apply inj_le, map_subseteq_size, map_filter_subseteq.
  - intros key Hhas s1 s2.
    assert (Hs1 : items s1 !! key = None).
    { unfold s1. destruct (items s !! key) as [e|] eqn:Hk.
      - rewrite (Has_present key s e Hk) in *.
        destruct (Before _ _); [|done]. simpl. apply lookup_delete_eq.
      - by rewrite (Has_absent key s Hk). }
    assert (Hs2 : items s2 !! key = None).
    { unfold s2. rewrite Len_spec; simpl.
      - apply map_lookup_filter_None. by left.
      - unfold s1. destruct (items s !! key) as [e|] eqn:Hk.
        + rewrite (Has_present key s e Hk).
          pose proof (map_subseteq_size (delete key (items s)) (items s)
                        (delete_subseteq _ _)).
          destruct (Before _ _); simpl; lia.
        + by rewrite (Has_absent key s Hk). }
    repeat split; [done..|]. by rewrite (Has_absent key s2 Hs2).
Qed.

(** C7.  [Delete] and [Remove] do the same thing: on the same state and key
    they return the same result and leave the same state; each deletes the
    entry for the key whatever its deadline, reads no clock, and returns
    true exactly when an entry was in the store. *)
Theorem C7_Delete_Remove_agree key s :
  Delete key s = Remove key s /\
  Delete key s =
    (bool_decide (is_Some (items s !! key)),
     mk_State (delete key (items s)) (reads s)) /\
  ((Delete key s).1 = true <-> exists e, items s !! key = Some e) /\
  items (Delete key s).2 !! key = None /\
  items (Remove key s).2 !! key = None.
Proof.
  unfold Delete, Remove, cmap_Delete, cmap_Remove. simpl.
  rewrite lookup_delete_eq. repeat split; try done.
  - intros Hb. by apply bool_decide_eq_true_1 in Hb.
  - intros He. by apply bool_decide_eq_true_2.
Qed.

(** C8.  [Clear] empties the store, whatever the deadlines and without
    reading the clock; after it, for every key, [Get] returns the zero value
    and false, [Has] returns false, and [Len] returns 0. *)
Theorem C8_Clear_removes_everything key s :
  let s' := (Clear s).2 in
  items s' = ∅ /\ reads s' = reads s /\
  Get zero clock key s' = ((zero, false), s') /\
  Has clock key s' = (false, s') /\
  (Len clock order s').1 = 0 /\
  (IsEmpty clock order s').1 = true.
Proof.
  intros s'.
  assert (Hlen : (Len clock order s').1 = 0).
  { unfold Len. rewrite (Range_pure clock (fun _ _ c => int_incr c)).
    simpl. by rewrite order_empty. }
  split; [done|]. split; [done|].
  split; [by apply Get_absent|]. split; [by apply Has_absent|].
  split; [done|]. unfold IsEmpty, bind. cbn [fst snd]. by rewrite Hlen.
Qed.

(** C10.  [Range] reads the clock once, at its start, and so do [Len],
    [IsEmpty] and the producers behind [Iter], [Keys] and [Values]; every
    entry is judged against that one reading: the visitor is shown the
    entries that were live at it, also when the visitor itself lets time
    pass, and the visitor that reads the clock at each visit gets each of
    them with a later reading, whatever the deadline.  The producers send
    exactly the entries whose deadline is not before that reading, [Len]
    counts exactly those, [IsEmpty] tells whether there is none, and each
    of them leaves exactly those in the store.  [Has] and [Get] read the
    clock in their own call, when the key has an entry, and judge the entry
    against that reading; [GetOrSet] reads it in every call. *)
Theorem C10_Range_reads_clock_once s :
  (forall A (f : K -> V -> A -> M K V (bool * A)) a,
     (forall k v a s, reads (f k v a s).2 = reads s) ->
     reads (Range clock order f a s).2 = S (reads s)) /\
  reads (Len clock order s).2 = S (reads s) /\
  reads (IsEmpty clock order s).2 = S (reads s) /\
  reads (Iter_producer clock order s).2 = S (reads s) /\
  reads (Keys_producer clock order s).2 = S (reads s) /\
  reads (Values_producer clock order s).2 = S (reads s) /\
  (forall A (f : K -> V -> A -> M K V (bool * A)) a,
     (forall k v a s, items (f k v a s).2 = items s) ->
     exists vis rest,
       order (items s) = vis ++ rest /\
       (Range clock order (logged f) (a, []) s).1.2
         = shown <$> filter (live (clock (reads s))) vis /\
       (rest = [] \/
        exists vis' kv a0 s0,
          vis = vis' ++ [kv] /\ live (clock (reads s)) kv /\
          (f kv.1 (val kv.2) a0 s0).1.1 = false)) /\
  (Range clock order (stamping clock) [] s).1
    = imap (fun i kv => (kv.1, val kv.2, clock (S (reads s) + i)%nat))
           (filter (live (clock (reads s))) (order (items s))) /\
  (forall key e, items s !! key = Some e ->
     (Has clock key s).1 = bool_decide (clock (reads s) ≤ ttl e) /\
     reads (Has clock key s).2 = S (reads s) /\
     (Get zero clock key s).1.2 = bool_decide (clock (reads s) ≤ ttl e) /\
     reads (Get zero clock key s).2 = S (reads s)) /\
  (forall key, items s !! key = None ->
     reads (Has clock key s).2 = reads s /\
     reads (Get zero clock key s).2 = reads s) /\
  (forall key value d, reads (GetOrSet clock key value d s).2 = S (reads s)) /\
  Iter_producer clock order s =
    (shown <$> filter (live (clock (reads s))) (order (items s)),
     mk_State (filter (live (clock (reads s))) (items s)) (S (reads s))) /\
  Keys_producer clock order s =
    ((filter (live (clock (reads s))) (order (items s))).*1,
     mk_State (filter (live (clock (reads s))) (items s)) (S (reads s))) /\
  Values_producer clock order s =
    ((fun kv => val kv.2) <$> filter (live (clock (reads s))) (order (items s)),
     mk_State (filter (live (clock (reads s))) (items s)) (S (reads s))) /\
  (forall k v, (k, v) ∈ (Iter_producer clock order s).1 <->
     exists e, items s !! k = Some e /\ v = val e /\ clock (reads s) ≤ ttl e) /\
  (forall k, k ∈ (Keys_producer clock order s).1 <->
     exists e, items s !! k = Some e /\ clock (reads s) ≤ ttl e) /\
  (forall v, v ∈ (Values_producer clock order s).1 <->
     exists k e,
       items s !! k = Some e /\ v = val e /\ clock (reads s) ≤ ttl e) /\
  (Z.of_nat (size (items s)) < 2 ^ 63 ->
   Len clock order s =
     (Z.of_nat (size (filter (live (clock (reads s))) (items s))),
      mk_State (filter (live (clock (reads s))) (items s)) (S (reads s))) /\
   IsEmpty clock order s =
     ((Z.of_nat (size (filter (live (clock (reads s))) (items s))) =? 0),
      mk_State (filter (live (clock (reads s))) (items s)) (S (reads s))) /\
   ((IsEmpty clock order s).1 = true <->
    forall k e, items s !! k = Some e -> ttl e < clock (reads s))).
Proof.
  assert (Hpure : forall A (g : K -> V -> A -> A) a,
            reads (Range clock order
                     (fun k v a => ret (true, g k v a)) a s).2
            = S (reads s)).
  { intros A g a. by rewrite Range_pure. }
  assert (Hin : forall k e,
            (k, e) ∈ filter (live (clock (reads s))) (order (items s)) <->
            items s !! k = Some e /\ clock (reads s) ≤ ttl e).
  { intros k e. rewrite list_elem_of_filter, order_elem.
    unfold live. simpl. tauto. }
  split; [intros A f a Hf; by apply Range_reads|].
  split; [apply Hpure|].
  split; [unfold IsEmpty, bind; cbn [fst snd]; apply Hpure|].
  split; [apply (Hpure _ (fun k v ch => ch ++ [(k, v)]))|].
  split; [apply (Hpure _ (fun k _ ch => ch ++ [k]))|].
  split; [apply (Hpure _ (fun _ v ch => ch ++ [v]))|].
  split.
  { intros A f a Hf.
    destruct (Range_logged f a s Hf) as (vis & rest & Heq & Hlog & _ & Hstop).
    by exists vis, rest. }
  split.
  { unfold Range, bind, cmap_Range, time_Now. cbn [fst snd items reads].
    rewrite range_loop_stamping. done. }
  split.
  { intros key e Hk.
    rewrite (Has_present key s e Hk), (Get_present key s e Hk).
    destruct (Before _ _) eqn:Hb; cbn [fst snd reads].
    + apply Before_lt in Hb. by rewrite bool_decide_eq_false_2 by lia.
    + apply Before_ge in Hb. by rewrite bool_decide_eq_true_2 by lia. }
  split.
  { intros key Hk. by rewrite (Has_absent key s Hk), (Get_absent key s Hk). }
  split.
  { intros key value d. destruct (items s !! key) as [e|] eqn:Hk.
    + rewrite (GetOrSet_present key value d s e Hk). by destruct (Before _ _).
    + by rewrite (GetOrSet_absent key value d s Hk). }
  rewrite Iter_producer_eq, Keys_producer_eq, Values_producer_eq.
  rewrite evict_all by apply order_perm. cbn [fst snd].
  split; [done|]. split; [done|]. split; [done|].
  split; [intros k v; apply shown_live_elem|].
  split.
  { intros k. rewrite list_elem_of_fmap. split.
    - intros ([k' e] & -> & Hel). apply Hin in Hel as [Hk Hl]. by exists e.
    - intros (e & Hk & Hl). exists (k, e). split; [done|]. by apply Hin. }
  split.
  { intros v. rewrite list_elem_of_fmap. split.
    - intros ([k e] & -> & Hel). apply Hin in Hel as [Hk Hl]. by exists k, e.
    - intros (k & e & Hk & -> & Hl). exists (k, e). split; [done|].
      by apply Hin. }
  intros Hsz. unfold IsEmpty, bind, ret. rewrite (Len_spec clock s Hsz).
  cbn [fst snd]. split; [done|]. split; [done|].
  rewrite <- live_filter_empty, <- map_size_empty_iff, Z.eqb_eq. lia.
Qed.

End Order.

End Proofs.

(** * The theorems at concrete stores *)

Lemma map_to_list_order {K} `{Countable K} {A} :
  forall m : gmap K A, map_to_list m ≡ₚ map_to_list m.
Proof. intros m. reflexivity. Qed.

(** C1, the claim as it was stated fails: with the deadline equal to the
    time read, [Has] returns true, [Get] returns the value, [Range] shows
    the entry, and the entry stays in the store. *)
Lemma C1_counterexample_deadline_equal_now :
  ttl Sample.e_5 = Sample.fixed 5 (reads Sample.one) /\
  items Sample.one !! 1%nat = Some Sample.e_5 /\
  Has (Sample.fixed 5) 1%nat Sample.one
    = (true, mk_State (items Sample.one) 1) /\
  Get 0%nat (Sample.fixed 5) 1%nat Sample.one
    = ((7%nat, true), mk_State (items Sample.one) 1) /\
  Range (Sample.fixed 5) map_to_list
        (fun k v ch => ret (true, ch ++ [(k, v)])) [] Sample.one
    = ([(1%nat, 7%nat)], mk_State (items Sample.one) 1).
Proof. vm_compute. repeat split; reflexivity. Qed.

Lemma C1_witness :
  items Sample.one !! 1%nat = Some Sample.e_5 /\
  (Has (Sample.fixed 6) 1%nat Sample.one).1 = false /\
  items (Get 0%nat (Sample.fixed 6) 1%nat Sample.one).2 !! 1%nat = None.
Proof.
  assert (Hk : items Sample.one !! 1%nat = Some Sample.e_5)
    by apply lookup_singleton_eq.
  pose proof (C1_expired_iff_deadline_before_now 0%nat (Sample.fixed 6)
                map_to_list map_to_list_order 1%nat Sample.e_5 Sample.one Hk)
    as Hw.
  cbv zeta in Hw. destruct Hw as (Hhas & _ & _ & Hget & _).
  split; [exact Hk|]. split; [exact Hhas|exact Hget].
Defined.

Lemma C3_witness :
  items Sample.empty !! 1%nat = None /\
  1 < Sample.ticking 1 /\
  (GetOrSet Sample.ticking 1%nat 8%nat 99
     (GetOrSet Sample.ticking 1%nat 7%nat 1 Sample.empty).2).1 = 8%nat /\
  items (GetOrSet Sample.ticking 1%nat 8%nat 99
           (GetOrSet Sample.ticking 1%nat 7%nat 1 Sample.empty).2).2 !! 1%nat
    = Some (mk_expiringMapVal 8%nat 99).
Proof.
  assert (Hk : items Sample.empty !! 1%nat = None) by apply lookup_empty.
  assert (Hd : 1 < Sample.ticking 1) by (vm_compute; reflexivity).
  pose proof (C3_GetOrSet_overwrites_expired Sample.ticking 1%nat 7%nat 1
                Sample.empty) as Hw.
  cbv zeta in Hw. destruct Hw as (_ & _ & _ & Hseq).
  split; [exact Hk|]. split; [exact Hd|].
  apply Hseq; [|exact Hd].
  intros e He. rewrite Hk in He. discriminate He.
Defined.

Lemma C4_witness :
  (Get 0%nat Sample.ticking 4%nat
     (Set_ 4%nat 6%nat 5 Sample.three).2).1 = (6%nat, true) /\
  (Get 0%nat (Sample.fixed 9) 4%nat
     (Set_ 4%nat 6%nat 5 Sample.three).2).1 = (0%nat, false) /\
  (Len (Sample.fixed 9) map_to_list
     (Get 0%nat (Sample.fixed 9) 4%nat
        (Set_ 4%nat 6%nat 5 Sample.three).2).2).1
    = Z.of_nat (size (filter (live 9) (delete 4%nat (items Sample.three)))).
Proof.
  pose proof (C4_Set_then_Get 0%nat Sample.ticking map_to_list
                map_to_list_order 4%nat 6%nat 5 Sample.three) as Hlive.
  pose proof (C4_Set_then_Get 0%nat (Sample.fixed 9) map_to_list
                map_to_list_order 4%nat 6%nat 5 Sample.three) as Hdead.
  cbv zeta in Hlive, Hdead.
  destruct Hlive as (_ & Hlive & _). destruct Hdead as (_ & _ & Hdead).
  split; [apply Hlive; vm_compute; discriminate|].
  destruct Hdead as (Hget & _ & _ & Hlen); [vm_compute; reflexivity|].
  split; [exact Hget|].
  apply Hlen. vm_compute. reflexivity.
Defined.

(** C5, the claim as it was stated fails: the entry shown by [Range] and
    counted by [Len] has a deadline equal to the time read, not strictly
    after it. *)
Lemma C5_counterexample_deadline_equal_now :
  items Sample.one !! 1%nat = Some Sample.e_5 /\
  (Sample.fixed 5 (reads Sample.one) <? ttl Sample.e_5) = false /\
  (Range (Sample.fixed 5) map_to_list (logged Sample.counting)
         (0%nat, []) Sample.one).1 = (1%nat, [(1%nat, 7%nat)]) /\
  (Len (Sample.fixed 5) map_to_list Sample.one).1 = 1.
Proof. vm_compute. repeat split; reflexivity. Qed.

Lemma counting_keeps_items (k v c : nat) (s : State nat nat) :
  items (Sample.counting k v c s).2 = items s.
Proof. reflexivity. Qed.

Lemma C5_witness :
  Z.of_nat (size (items Sample.three)) < 2 ^ 63 /\
  (forall k v,
     (k, v) ∈ (Range (Sample.fixed 7) map_to_list (logged Sample.counting)
                 (0%nat, []) Sample.three).1.2 ->
     exists e, items Sample.three !! k = Some e /\ v = val e /\ 7 ≤ ttl e) /\
  Len (Sample.fixed 7) map_to_list Sample.three
    = (Z.of_nat (size (filter (live 7) (items Sample.three))),
       mk_State (filter (live 7) (items Sample.three)) 1).
Proof.
  assert (Hsz : Z.of_nat (size (items Sample.three)) < 2 ^ 63)
    by (vm_compute; reflexivity).
  pose proof (C5_Range_shows_live_entries (Sample.fixed 7) map_to_list
                map_to_list_order Sample.counting 0%nat Sample.three
                counting_keeps_items) as Hw.
  cbv zeta in Hw. destruct Hw as (_ & Hshown & _ & Hlen).
  split; [exact Hsz|]. split; [exact Hshown|exact (Hlen Hsz)].
Defined.

Lemma C6_witness :
  Z.of_nat (size (items Sample.three)) < 2 ^ 63 /\
  Sample.ticking (reads Sample.three) ≤ Sample.ticking (S (reads Sample.three))
  /\
  (Len (fun _ => 12) map_to_list Sample.three).1
    ≤ (Len (fun _ => 7) map_to_list Sample.three).1 /\
  (Len Sample.ticking map_to_list
     (Len Sample.ticking map_to_list Sample.three).2).1
    ≤ (Len Sample.ticking map_to_list Sample.three).1.
Proof.
  assert (Hsz : Z.of_nat (size (items Sample.three)) < 2 ^ 63)
    by (vm_compute; reflexivity).
  assert (Hmono : Sample.ticking (reads Sample.three)
                  ≤ Sample.ticking (S (reads Sample.three)))
    by (vm_compute; discriminate).
  pose proof (C6_Len_shrinks_over_time Sample.ticking map_to_list
                map_to_list_order Sample.three Hsz) as Hw.
  destruct Hw as (Htimes & Hseq & _).
  split; [exact Hsz|]. split; [exact Hmono|].
  split; [apply Htimes; vm_compute; discriminate|].
  apply (Hseq Hmono).
Defined.

Lemma C8_witness :
  Get 0%nat Sample.ticking 2%nat (Clear Sample.three).2
    = ((0%nat, false), (Clear Sample.three).2) /\
  Has Sample.ticking 2%nat (Clear Sample.three).2
    = (false, (Clear Sample.three).2) /\
  (Len Sample.ticking map_to_list (Clear Sample.three).2).1 = 0.
Proof.
  pose proof (C8_Clear_removes_everything 0%nat Sample.ticking map_to_list
                map_to_list_order 2%nat Sample.three) as Hw.
  cbv zeta in Hw. destruct Hw as (_ & _ & Hget & Hhas & Hlen & _).
  split; [exact Hget|]. split; [exact Hhas|exact Hlen].
Defined.

(** Three entries, all live when [Range] starts at time 0; the clock moves on
    by ten units per reading, so that each entry is shown to the visitor at
    a time when its deadline (5, 10, 20) is already behind; a [Has] made at
    such a time reports the entry absent. *)
Lemma Range_shows_entries_expired_at_visit :
  (Range Sample.ticking map_to_list (stamping Sample.ticking) []
         Sample.three).1
    = [(2%nat, 8%nat, 10); (3%nat, 9%nat, 20); (1%nat, 7%nat, 30)] /\
  (Has Sample.ticking 1%nat (mk_State (items Sample.three) 3)).1 = false.
Proof. vm_compute. split; reflexivity. Qed.

Lemma C10_witness :
  Z.of_nat (size (items Sample.three)) < 2 ^ 63 /\
  reads (Range Sample.ticking map_to_list Sample.counting 0%nat
           Sample.three).2 = 1%nat /\
  (Range Sample.ticking map_to_list (stamping Sample.ticking) []
         Sample.three).1
    = imap (fun i kv => (kv.1, val kv.2, Sample.ticking (1 + i)%nat))
           (filter (live 0) (map_to_list (items Sample.three))) /\
  (forall k, k ∈ (Keys_producer (Sample.fixed 7) map_to_list Sample.three).1
     <-> exists e, items Sample.three !! k = Some e /\ 7 ≤ ttl e) /\
  Len (Sample.fixed 7) map_to_list Sample.three
    = (Z.of_nat (size (filter (live 7) (items Sample.three))),
       mk_State (filter (live 7) (items Sample.three)) 1).
Proof.
  assert (Hsz : Z.of_nat (size (items Sample.three)) < 2 ^ 63)
    by (vm_compute; reflexivity).
  pose proof (C10_Range_reads_clock_once 0%nat Sample.ticking map_to_list
                map_to_list_order Sample.three) as Hw.
  pose proof (C10_Range_reads_clock_once 0%nat (Sample.fixed 7) map_to_list
                map_to_list_order Sample.three) as Hw7.
  destruct Hw as (Hreads & _ & _ & _ & _ & _ & _ & Hstamp & _).
  destruct Hw7 as (_ & _ & _ & _ & _ & _ & _ & _ & _ & _ & _ & _ & _ & _ & _
                   & Hkeys & _ & Hlen).
  split; [exact Hsz|]. split; [|split; [exact Hstamp|]].
  - apply Hreads. intros k v a s. reflexivity.
  - split; [exact Hkeys|]. exact (proj1 (Hlen Hsz)).
Defined.

(** * Further properties of the methods *)

Section Methods.

Context {K : Type} `{Countable K} {V : Type}.
Variable zero : V.
Variable clock : nat -> Time.
Variable order : gmap K (expiringMapVal V) -> list (K * expiringMapVal V).

Implicit Types (s : State K V) (key k : K) (value v : V) (e : expiringMapVal V).
Implicit Types (now d : Time) (m : gmap K (expiringMapVal V)).

Lemma State_eta s : mk_State (items s) (reads s) = s.
Proof. by destruct s. Qed.

(** X1.  [Set] reports whether the store held an entry for the key, expired
    or not; of two [Set]s on one key the second reports true and its entry
    alone remains; a [Get] that follows returns the second value as long as
    the second deadline is not before the time read. *)
Theorem X1_Set_last_write_wins key v1 d1 v2 d2 s :
  let r1 := Set_ key v1 d1 s in
  let r2 := Set_ key v2 d2 r1.2 in
  (r1.1 = true <-> exists e, items s !! key = Some e) /\
  r2.1 = true /\
  items r2.2 = <[key := mk_expiringMapVal v2 d2]> (items s) /\
  reads r2.2 = reads s /\
  (clock (reads s) ≤ d2 -> (Get zero clock key r2.2).1 = (v2, true)) /\
  (d2 < clock (reads s) -> (Get zero clock key r2.2).1 = (zero, false)).
Proof.
  intros r1 r2. unfold r2, r1, Set_, cmap_Set. cbn [fst snd items reads].
  rewrite lookup_insert_eq, insert_insert_eq.
  split.
  { split.
    - intros Hb. by apply bool_decide_eq_true_1 in Hb.
    - intros He. by apply bool_decide_eq_true_2. }
  split; [by apply bool_decide_eq_true_2|]. split; [done|]. split; [done|].
  split.
  - intros Hge. erewrite Get_present by apply lookup_insert_eq.
    cbn [ttl val reads]. apply Before_ge in Hge. by rewrite Hge.
  - intros Hlt. erewrite Get_present by apply lookup_insert_eq.
    cbn [ttl val reads]. apply Before_lt in Hlt. by rewrite Hlt.
Qed.

(** X2.  [Has] and [Get] agree: on the same state and key the boolean of
    [Get] is the result of [Has], both leave the same state, and [Get]
    returns the zero value whenever its boolean is false. *)
Theorem X2_Has_Get_agree key s :
  (Get zero clock key s).1.2 = (Has clock key s).1 /\
  (Get zero clock key s).2 = (Has clock key s).2 /\
  ((Has clock key s).1 = false -> (Get zero clock key s).1.1 = zero) /\
  ((Has clock key s).1 = true ->
     exists e, items s !! key = Some e /\ (Get zero clock key s).1.1 = val e /\
               items (Has clock key s).2 = items s).
Proof.
  destruct (items s !! key) as [e|] eqn:Hk.
  - rewrite (Has_present clock key s e Hk), (Get_present zero clock key s e Hk).
    destruct (Before _ _); cbn [fst snd]; repeat split; try done.
    intros _. by exists e.
  - rewrite (Has_absent clock key s Hk), (Get_absent zero clock key s Hk).
    repeat split; done.
Qed.

(** X3.  [GetOrSet] returns the value that the store holds for the key when
    the call ends, and always leaves an entry for the key; whether a [Get]
    made next finds that value depends on the deadline of that entry alone,
    so a [GetOrSet] with a deadline that is already behind returns a value
    that the next [Get] reports absent. *)
Theorem X3_GetOrSet_returns_stored_value key value d s :
  let r := GetOrSet clock key value d s in
  exists e',
    items r.2 !! key = Some e' /\ r.1 = val e' /\
    (Get zero clock key r.2).1 =
      (if bool_decide (clock (reads r.2) ≤ ttl e')
       then (r.1, true) else (zero, false)) /\
    (items s !! key = None -> e' = mk_expiringMapVal value d).
Proof.
  intros r.
  assert (Hgen : forall e', items r.2 !! key = Some e' ->
            (Get zero clock key r.2).1 =
              (if bool_decide (clock (reads r.2) ≤ ttl e')
               then (val e', true) else (zero, false))).
  { intros e' He'. rewrite (Get_present zero clock key r.2 e' He').
    destruct (Before _ _) eqn:Hb; cbn [fst].
    - apply Before_lt in Hb. by rewrite bool_decide_eq_false_2 by lia.
    - apply Before_ge in Hb. by rewrite bool_decide_eq_true_2 by lia. }
  destruct (items s !! key) as [e|] eqn:Hk.
  - pose proof (GetOrSet_present clock key value d s e Hk) as Hr. fold r in Hr.
    destruct (Before (ttl e) (clock (reads s))).
    + exists (mk_expiringMapVal value d).
      assert (He' : items r.2 !! key = Some (mk_expiringMapVal value d))
        by (rewrite Hr; apply lookup_insert_eq).
      split; [done|]. split; [by rewrite Hr|].
      split; [|done]. rewrite (Hgen _ He'). by rewrite Hr.
    + exists e.
      assert (He' : items r.2 !! key = Some e) by by rewrite Hr.
      split; [done|]. split; [by rewrite Hr|].
      split; [|done]. rewrite (Hgen _ He'). by rewrite Hr.
  - pose proof (GetOrSet_absent clock key value d s Hk) as Hr. fold r in Hr.
    exists (mk_expiringMapVal value d).
    assert (He' : items r.2 !! key = Some (mk_expiringMapVal value d))
      by (rewrite Hr; apply lookup_insert_eq).
    split; [done|]. split; [by rewrite Hr|].
    split; [|done]. rewrite (Hgen _ He'). by rewrite Hr.
Qed.

(** X4.  The methods that work on one key leave every other key as it is:
    no read evicts, and no write replaces, the entry of another key. *)
Theorem X4_other_keys_untouched key k value d s :
  key <> k ->
  items (SetIfAbsent key value d s).2 !! k = items s !! k /\
  items (Set_ key value d s).2 !! k = items s !! k /\
  items (GetOrSet clock key value d s).2 !! k = items s !! k /\
  items (Has clock key s).2 !! k = items s !! k /\
  items (Get zero clock key s).2 !! k = items s !! k /\
  items (Delete key s).2 !! k = items s !! k /\
  items (Remove key s).2 !! k = items s !! k.
Proof.
  intros Hne.
  split.
  { unfold SetIfAbsent, cmap_SetIfAbsent.
    destruct (items s !! key); cbn [snd items]; [done|].
    by rewrite lookup_insert_ne. }
  split.
  { unfold Set_, cmap_Set. cbn [snd items]. by rewrite lookup_insert_ne. }
  split.
  { destruct (items s !! key) as [e|] eqn:Hk.
    - rewrite (GetOrSet_present clock key value d s e Hk).
      destruct (Before _ _); cbn [snd items]; [|done].
      by rewrite lookup_insert_ne.
    - rewrite (GetOrSet_absent clock key value d s Hk). cbn [snd items].
      by rewrite lookup_insert_ne. }
  split.
  { destruct (items s !! key) as [e|] eqn:Hk.
    - rewrite (Has_present clock key s e Hk).
      destruct (Before _ _); cbn [snd items]; [|done].
      by rewrite lookup_delete_ne.
    - by rewrite (Has_absent clock key s Hk). }
  split.
  { destruct (items s !! key) as [e|] eqn:Hk.
    - rewrite (Get_present zero clock key s e Hk).
      destruct (Before _ _); cbn [snd items]; [|done].
      by rewrite lookup_delete_ne.
    - by rewrite (Get_absent zero clock key s Hk). }
  unfold Delete, Remove, cmap_Delete, cmap_Remove. cbn [snd items].
  by rewrite lookup_delete_ne.
Qed.

(** X5.  An expired entry that nothing has read yet keeps its key taken:
    [SetIfAbsent] on it fails and changes nothing; once a [Has] or a [Get]
    has met the entry, it is gone, and the same [SetIfAbsent] succeeds and
    stores its entry. *)
Theorem X5_expired_entry_blocks_until_read key e value d s :
  items s !! key = Some e ->
  ttl e < clock (reads s) ->
  SetIfAbsent key value d s = (false, s) /\
  (Has clock key s).1 = false /\
  (SetIfAbsent key value d (Has clock key s).2).1 = true /\
  items (SetIfAbsent key value d (Has clock key s).2).2 !! key
    = Some (mk_expiringMapVal value d) /\
  (SetIfAbsent key value d (Get zero clock key s).2).1 = true /\
  size (items (Has clock key s).2) = pred (size (items s)).
Proof.
  intros Hk Hlt. apply Before_lt in Hlt.
  rewrite (Has_present clock key s e Hk), (Get_present zero clock key s e Hk), Hlt.
  unfold SetIfAbsent, cmap_SetIfAbsent. rewrite Hk. cbn [fst snd items reads].
  rewrite lookup_delete_eq. cbn [fst snd items]. rewrite lookup_insert_eq.
  repeat split; try done.
  by rewrite map_size_delete, Hk.
Qed.

(** X6.  [Delete] and [Remove] on a key without entry return false and leave
    the state as it is; a second removal of the same key returns false; and
    removing a key right after a [Set] that created it gives back the state
    from before the [Set]. *)
Theorem X6_Delete_missing_and_round_trip key value d s :
  (items s !! key = None ->
     Delete key s = (false, s) /\ Remove key s = (false, s) /\
     Delete key (Set_ key value d s).2 = (true, s) /\
     Remove key (Set_ key value d s).2 = (true, s)) /\
  (Delete key (Delete key s).2).1 = false /\
  (Remove key (Remove key s).2).1 = false /\
  (Get zero clock key (Delete key s).2).1 = (zero, false) /\
  (Has clock key (Remove key s).2).1 = false.
Proof.
  split.
  { intros Hk. unfold Delete, Remove, Set_, cmap_Delete, cmap_Remove, cmap_Set.
    cbn [fst snd items reads].
    rewrite Hk, lookup_insert_eq, delete_insert_eq, (delete_id _ _ Hk).
    rewrite State_eta. repeat split; try done. }
  unfold Delete, Remove, cmap_Delete, cmap_Remove. cbn [fst snd items reads].
  rewrite lookup_delete_eq.
  split; [done|]. split; [done|].
  split.
  - rewrite Get_absent; [done|]. cbn [items]. apply lookup_delete_eq.
  - rewrite Has_absent; [done|]. cbn [items]. apply lookup_delete_eq.
Qed.

End Methods.

(** * Further properties of the traversals *)

Section Traversals.

Context {K : Type} `{Countable K} {V : Type}.
Variable zero : V.
Variable clock : nat -> Time.
Variable order : gmap K (expiringMapVal V) -> list (K * expiringMapVal V).
Hypothesis order_perm : forall m, order m ≡ₚ map_to_list m.

Implicit Types (s : State K V) (key k : K) (value v : V) (e : expiringMapVal V).
Implicit Types (now d : Time) (m : gmap K (expiringMapVal V)).
Implicit Types (es vis rest : list (K * expiringMapVal V)).

Lemma evict_subseteq now es m : evict now es m ⊆ m.
Proof.
  revert m. induction es as [|kv es IH]; intros m; [done|].
  simpl. etrans; [apply IH|].
  destruct (Before _ _); [apply delete_subseteq|done].
Qed.

Lemma order_NoDup_keys m : NoDup (order m).*1.
Proof. rewrite order_perm. apply NoDup_fst_map_to_list. Qed.

Lemma shown_keys es : (shown <$> es).*1 = es.*1.
Proof. rewrite <- list_fmap_compose. done. Qed.

Lemma Len_bound s :
  Z.of_nat (size (items s)) < 2 ^ 63 ->
  forall now, Z.of_nat (size (filter (live now) (items s))) < 2 ^ 63.
Proof.
  intros Hsz now. pose proof (map_size_filter (live now) (items s)). lia.
Qed.

(** X7.  [IsEmpty] returns true exactly when no entry of the store is live
    at the time it reads, that is when every entry has its deadline before
    that time; entries that are stored but expired do not count, and the
    call deletes them. *)
Theorem X7_IsEmpty_iff_no_live_entry s :
  Z.of_nat (size (items s)) < 2 ^ 63 ->
  ((IsEmpty clock order s).1 = true <->
   forall k e, items s !! k = Some e -> ttl e < clock (reads s)) /\
  ((IsEmpty clock order s).1 = true -> items (IsEmpty clock order s).2 = ∅) /\
  items (IsEmpty clock order s).2 = filter (live (clock (reads s))) (items s).
Proof.
  intros Hsz. unfold IsEmpty, bind, ret. cbn [fst snd].
  rewrite (Len_spec order order_perm clock s Hsz). cbn [fst snd items].
  rewrite <- live_filter_empty, <- map_size_empty_iff.
  split; [|split; [|done]].
  - rewrite Z.eqb_eq. lia.
  - rewrite Z.eqb_eq. intros Hz. rewrite ?map_size_empty_iff in *.
    apply map_size_empty_iff. lia.
Qed.

(** X8.  [Len] returns the number of entries of the store it leaves behind;
    that store is a part of the store it found, holds only entries whose
    deadline is not before the time read, and the result lies between 0 and
    the number of entries found; a [Len] that follows without the clock
    having advanced returns the same number and changes no entry. *)
Theorem X8_Len_is_size_of_what_it_leaves s :
  Z.of_nat (size (items s)) < 2 ^ 63 ->
  let r := Len clock order s in
  r.1 = Z.of_nat (size (items r.2)) /\
  items r.2 ⊆ items s /\
  (forall k e, items r.2 !! k = Some e -> clock (reads s) ≤ ttl e) /\
  0 ≤ r.1 ≤ Z.of_nat (size (items s)) /\
  (clock (S (reads s)) ≤ clock (reads s) ->
   Len clock order r.2 = (r.1, mk_State (items r.2) (S (S (reads s))))).
Proof.
  intros Hsz r. unfold r.
  rewrite (Len_spec order order_perm clock s Hsz). cbn [fst snd items reads].
  pose proof (map_size_filter (live (clock (reads s))) (items s)) as Hle.
  split; [done|]. split; [apply map_filter_subseteq|].
  split.
  { intros k e Hk. by apply map_lookup_filter_Some in Hk as [_ Hl]. }
  split; [lia|].
  intros Hback. rewrite (Len_spec order order_perm clock); [|cbn [items]; lia].
  cbn [items reads].
  rewrite map_filter_filter_r; [done|].
  intros k e _ Hl. unfold live in *. simpl in *. lia.
Qed.

(** X9.  The count after a [Set]: [Len] called after [Set(key, value, d)]
    returns the number of live entries under the other keys, plus one when
    [d] is not before the time read.  For a key that had no entry, the
    [Set] raises the count by one, or leaves it as it was when [d] is
    already behind. *)
Theorem X9_Len_after_Set key value d s :
  Z.of_nat (size (items s)) + 1 < 2 ^ 63 ->
  let now := clock (reads s) in
  (Len clock order (Set_ key value d s).2).1
    = Z.of_nat (size (filter (live now) (delete key (items s))))
      + (if bool_decide (now ≤ d) then 1 else 0) /\
  (items s !! key = None ->
   (Len clock order (Set_ key value d s).2).1
     = (Len clock order s).1 + (if bool_decide (now ≤ d) then 1 else 0)).
Proof.
  intros Hsz now.
  assert (Hlen : (Len clock order (Set_ key value d s).2).1
            = Z.of_nat (size (filter (live now) (delete key (items s))))
              + (if bool_decide (now ≤ d) then 1 else 0)).
  { rewrite (Len_spec order order_perm clock).
    2:{ unfold Set_, cmap_Set. cbn [snd items].
        pose proof (map_size_insert key (mk_expiringMapVal value d) (items s)).
        destruct (items s !! key); simpl in *; lia. }
    unfold Set_, cmap_Set. cbn [fst snd items reads]. fold now.
    rewrite map_filter_insert. case_decide as Hl.
    - rewrite bool_decide_eq_true_2 by done.
      rewrite <- insert_delete_eq, <- map_filter_delete.
      rewrite map_size_insert_None; [lia|].
      apply map_lookup_filter_None. left. apply lookup_delete_eq.
    - rewrite bool_decide_eq_false_2 by done. lia. }
  split; [done|].
  intros Hk. rewrite Hlen, (delete_id _ _ Hk).
  rewrite (Len_spec order order_perm clock); [done|lia].
Qed.

(** X10.  For a visitor that does not write to the map, [Range] only ever
    removes entries, never removes one whose deadline is not before the
    time read, and shows no key twice in one call. *)
Theorem X10_Range_keeps_live_entries {A}
    (f : K -> V -> A -> M K V (bool * A)) a s :
  (forall k v a s, items (f k v a s).2 = items s) ->
  let now := clock (reads s) in
  let r := Range clock order f a s in
  items r.2 ⊆ items s /\
  (forall k e, items s !! k = Some e -> now ≤ ttl e ->
     items r.2 !! k = Some e) /\
  NoDup (Range clock order (logged f) (a, []) s).1.2.*1.
Proof.
  intros Hf now r.
  destruct (Range_logged clock order f a s Hf)
    as (vis & rest & Heq & Hlog & Hit & _).
  fold now in Hlog, Hit.
  assert (Hr : items r.2 = evict now vis (items s)).
  { unfold r. rewrite <- (Range_erase clock order f a []). by rewrite <- Hit. }
  split; [rewrite Hr; apply evict_subseteq|]. split.
  - intros k e Hk Hl. rewrite Hr, evict_lookup_keep; [done|].
    intros e' Hin.
    assert (Hin' : (k, e') ∈ order (items s)).
    { rewrite Heq. apply elem_of_app. by left. }
    apply (order_elem order order_perm) in Hin'.
    assert (e' = e) by congruence. by subst.
  - rewrite Hlog, shown_keys.
    apply (sublist_NoDup _ (order (items s)).*1); [apply order_NoDup_keys|].
    apply fmap_sublist. rewrite Heq.
    apply sublist_inserts_r, sublist_filter.
Qed.

Lemma range_loop_stop now {A} (f : K -> V -> A -> M K V (bool * A)) :
  (forall k v a s, (f k v a s).1.1 = false) ->
  forall es a l s,
    (range_loop (Range_visit now (logged f)) es (a, l) s).1.2
    = l ++ take 1 (shown <$> filter (live now) es).
Proof.
  intros Hf es. induction es as [|[k e] es IH]; intros a l s.
  - simpl. by rewrite app_nil_r.
  - rewrite range_loop_cons.
    destruct (Before (ttl e) now) eqn:Hb.
    + rewrite !Range_visit_expired by done. cbn [fst snd]. rewrite IH.
      rewrite filter_cons_False; [done|].
      intros Hl. apply Before_live in Hl. simpl in Hl. congruence.
    + rewrite !Range_visit_live by done.
      rewrite (filter_cons_True (live now)) by by apply Before_live.
      unfold logged at 1 3. unfold bind, ret. cbn [fst snd].
      by rewrite Hf.
Qed.

(** X12.  A visitor that returns false at its first call is shown one
    entry, the first live entry in the order of the traversal, and is shown
    nothing exactly when the store holds no live entry. *)
Theorem X12_Range_stops_at_first_live_entry {A}
    (f : K -> V -> A -> M K V (bool * A)) a s :
  (forall k v a s, (f k v a s).1.1 = false) ->
  let now := clock (reads s) in
  let r := Range clock order (logged f) (a, []) s in
  r.1.2 = take 1 (shown <$> filter (live now) (order (items s))) /\
  (length r.1.2 ≤ 1)%nat /\
  (r.1.2 = [] <-> forall k e, items s !! k = Some e -> ttl e < now).
Proof.
  intros Hf now r.
  assert (Hr : r.1.2 = take 1 (shown <$> filter (live now) (order (items s)))).
  { unfold r, Range, bind, cmap_Range, time_Now. cbn [fst snd items reads].
    by rewrite (range_loop_stop _ f Hf). }
  split; [done|]. rewrite Hr. split; [rewrite length_take; lia|].
  pose proof (shown_live_elem order order_perm now (items s)) as Hel.
  destruct (shown <$> filter (live now) (order (items s))) as [|[k v] l].
  - split; [|done]. intros _ k e Hk.
    destruct (decide (ttl e < now)) as [|Hge]; [done|].
    assert (Hin : (k, val e) ∈ @nil (K * V)).
    { apply Hel. exists e. repeat split; [done|lia]. }
    by apply elem_of_nil in Hin.
  - split; [done|]. intros Hall.
    assert (Hin : (k, v) ∈ (k, v) :: l) by left.
    apply Hel in Hin as (e & Hk & _ & Hl). specialize (Hall k e Hk). lia.
Qed.

End Traversals.

(** * The producers of [Iter], [Keys] and [Values] side by side *)

Section Producers.

Context {K : Type} `{Countable K} {V : Type}.
Variable clock : nat -> Time.

(** Each call walks the store in an order of its own. *)
Variables order_i order_k order_v order_l :
  gmap K (expiringMapVal V) -> list (K * expiringMapVal V).
Hypothesis perm_i : forall m, order_i m ≡ₚ map_to_list m.
Hypothesis perm_k : forall m, order_k m ≡ₚ map_to_list m.
Hypothesis perm_v : forall m, order_v m ≡ₚ map_to_list m.
Hypothesis perm_l : forall m, order_l m ≡ₚ map_to_list m.

Implicit Types (s : State K V) (k : K) (v : V) (e : expiringMapVal V).

(** X11.  Started on the same store at the same time, the producers behind
    [Iter], [Keys] and [Values] send the live entries of the store, each
    once, whatever the order in which each one walks the store: the keys
    sent by [Keys] and the values sent by [Values] are, up to their order,
    those of the pairs sent by [Iter]; an entry is sent exactly when it is
    in the store with a deadline not before the time read; no key is sent
    twice; the three leave the same state; and each sends as many items as
    [Len] returns. *)
Theorem X11_producers_send_live_entries s :
  let now := clock (reads s) in
  let it := Iter_producer clock order_i s in
  let ks := Keys_producer clock order_k s in
  let vs := Values_producer clock order_v s in
  ks.1 ≡ₚ it.1.*1 /\
  vs.1 ≡ₚ it.1.*2 /\
  ks.2 = it.2 /\
  vs.2 = it.2 /\
  (forall k v, (k, v) ∈ it.1 <->
     exists e, items s !! k = Some e /\ v = val e /\ now ≤ ttl e) /\
  (forall k, k ∈ ks.1 <->
     exists e, items s !! k = Some e /\ now ≤ ttl e) /\
  NoDup ks.1 /\
  NoDup it.1.*1 /\
  (Z.of_nat (size (items s)) < 2 ^ 63 ->
   Z.of_nat (length it.1) = (Len clock order_l s).1 /\
   Z.of_nat (length ks.1) = (Len clock order_l s).1 /\
   Z.of_nat (length vs.1) = (Len clock order_l s).1).
Proof.
  intros now it ks vs. unfold it, ks, vs.
  rewrite Iter_producer_eq, Keys_producer_eq, Values_producer_eq.
  rewrite !evict_all by done. cbn [fst snd]. fold now.
  assert (Hik : order_k (items s) ≡ₚ order_i (items s))
    by by rewrite perm_k, perm_i.
  assert (Hiv : order_v (items s) ≡ₚ order_i (items s))
    by by rewrite perm_v, perm_i.
  split; [by rewrite shown_keys, Hik|].
  split.
  { rewrite <- list_fmap_compose, Hiv. done. }
  split; [done|]. split; [done|].
  split; [intros k v; apply (shown_live_elem order_i perm_i)|].
  split.
  { intros k. rewrite list_elem_of_fmap. split.
    - intros ([k' e] & -> & Hel).
      apply list_elem_of_filter in Hel as [Hl Hel].
      apply (order_elem order_k perm_k) in Hel. by exists e.
    - intros (e & Hk & Hl). exists (k, e). split; [done|].
      apply list_elem_of_filter. split; [done|].
      by apply (order_elem order_k perm_k). }
  split.
  { apply (sublist_NoDup _ (order_k (items s)).*1).
    - apply (order_NoDup_keys order_k perm_k).
    - apply fmap_sublist, sublist_filter. }
  split.
  { rewrite shown_keys. apply (sublist_NoDup _ (order_i (items s)).*1).
    - apply (order_NoDup_keys order_i perm_i).
    - apply fmap_sublist, sublist_filter. }
  intros Hsz. rewrite (Len_spec order_l perm_l clock s Hsz). cbn [fst].
  rewrite !length_fmap. fold now.
  rewrite (live_count order_i now (order_i (items s)) (items s)) by done.
  rewrite (live_count order_k now (order_k (items s)) (items s)) by done.
  by rewrite (live_count order_v now (order_v (items s)) (items s)) by done.
Qed.

End Producers.

(** * The tests as programs *)

Section TestRuns.

Import Tests.

Variable clock : nat -> Time.
Variable order :
  gmap string (expiringMapVal Animal) -> list (string * expiringMapVal Animal).
Hypothesis order_perm : forall m, order m ≡ₚ map_to_list m.

(** [Len] on a store of one entry. *)
Lemma Len_one_entry (k : string) (e : expiringMapVal Animal) (n : nat) :
  Len clock order (mk_State {[ k := e ]} n) =
  ((if bool_decide (clock n ≤ ttl e) then 1 else 0),
   mk_State (if bool_decide (clock n ≤ ttl e) then {[ k := e ]} else ∅)
            (S n)).
Proof.
  rewrite (Len_spec order order_perm clock).
  2:{ cbn [items]. rewrite map_size_singleton. lia. }
  cbn [items reads]. rewrite map_filter_singleton.
  destruct (decide (live (clock n) (k, e))) as [Hl|Hl];
    unfold live in Hl; cbn [snd] in Hl.
  - rewrite bool_decide_eq_true_2 by done. by rewrite map_size_singleton.
  - rewrite bool_decide_eq_false_2 by done. by rewrite map_size_empty.
Qed.

(** X13.  [TestExpire] reports no error exactly when the clock, between the
    reading that fixes the deadline and the reading made by [IsEmpty], has
    not gone back by a minute or more. *)
Theorem X13_TestExpire_outcome (n : nat) :
  (TestExpire clock order (New n)).1 = [] <->
  clock n - Minute < clock (S n).
Proof.
  unfold TestExpire, IsEmpty, bind, ret, time_Now, Set_, cmap_Set, New.
  cbn [fst snd items reads]. rewrite insert_empty, Len_one_entry.
  cbn [fst snd ttl].
  destruct (decide (clock (S n) ≤ clock n + - Minute)) as [Hl|Hl].
  - rewrite bool_decide_eq_true_2 by done. cbn. split; [done|lia].
  - rewrite bool_decide_eq_false_2 by done. cbn. split; [lia|done].
Qed.

(** [Len] on a store of two entries. *)
Lemma Len_two_entries (k1 k2 : string) (e1 e2 : expiringMapVal Animal)
    (n : nat) :
  k1 <> k2 ->
  (Len clock order (mk_State (<[k2 := e2]> {[ k1 := e1 ]}) n)).1 =
  (if bool_decide (clock n ≤ ttl e1) then 1 else 0)
  + (if bool_decide (clock n ≤ ttl e2) then 1 else 0).
Proof.
  intros Hne.
  assert (Hk2 : ({[ k1 := e1 ]} : gmap string (expiringMapVal Animal)) !! k2
                = None) by by rewrite lookup_singleton_ne.
  rewrite (Len_spec order order_perm clock).
  2:{ cbn [items]. rewrite map_size_insert_None, map_size_singleton by done.
      lia. }
  cbn [fst items reads]. rewrite map_filter_insert, map_filter_singleton.
  rewrite (delete_id _ _ Hk2), map_filter_singleton.
  destruct (decide (live (clock n) (k1, e1))) as [H1|H1];
    destruct (decide (live (clock n) (k2, e2))) as [H2|H2];
    unfold live in H1, H2; cbn [snd] in H1, H2;
    rewrite ?(bool_decide_eq_true_2 _ H1), ?(bool_decide_eq_true_2 _ H2),
      ?(bool_decide_eq_false_2 _ H1), ?(bool_decide_eq_false_2 _ H2).
  - by rewrite map_size_insert_None, map_size_singleton by done.
  - by rewrite map_size_singleton.
  - by rewrite map_size_insert_None, map_size_empty by apply lookup_empty.
  - by rewrite map_size_empty.
Qed.

(** X14.  [TestInsert] reports no error exactly when [Len] reads a time
    that is at most one minute after each of the two readings that fixed
    the deadlines: it fails on a clock that advances more than a minute
    between a [Set] and the count. *)
Theorem X14_TestInsert_outcome (n : nat) :
  (TestInsert clock order (New n)).1 = [] <->
  clock (S (S n)) ≤ clock n + Minute /\
  clock (S (S n)) ≤ clock (S n) + Minute.
Proof.
  unfold TestInsert, bind, ret, time_Now, Set_, cmap_Set, New.
  cbn [fst snd items reads]. rewrite insert_empty.
  rewrite Len_two_entries by done. cbn [ttl].
  destruct (decide (clock (S (S n)) ≤ clock n + Minute)) as [H1|H1];
    destruct (decide (clock (S (S n)) ≤ clock (S n) + Minute)) as [H2|H2];
    rewrite ?(bool_decide_eq_true_2 _ H1), ?(bool_decide_eq_true_2 _ H2),
      ?(bool_decide_eq_false_2 _ H1), ?(bool_decide_eq_false_2 _ H2);
    cbn; split; try done; intros [? ?]; lia.
Qed.

(** X15.  [TestGetOrSet] reports no error exactly when the second
    [GetOrSet] and the [Len] both read a time that is at most one minute
    after the first reading of the test; when more time goes by, the second
    call finds the first entry expired, replaces it and returns the new
    value, or the count comes out 0. *)
Theorem X15_TestGetOrSet_outcome (n : nat) :
  (TestGetOrSet clock order (New n)).1 = [] <->
  clock (3 + n)%nat ≤ clock n + Minute /\
  clock (4 + n)%nat ≤ clock n + Minute.
Proof.
  unfold TestGetOrSet, bind, ret, time_Now, New.
  cbn [fst snd items reads plus].
  rewrite (GetOrSet_absent clock "Money" _ _ (mk_State ∅ (S n)))
    by apply lookup_empty.
  cbn [fst snd items reads name]. rewrite insert_empty.
  rewrite (GetOrSet_present clock _ _ _ _ _ (lookup_singleton_eq _ _)).
  cbn [ttl val reads items].
  assert (Hsame : bool_decide ("elephant" = "elephant") = true)
    by by apply bool_decide_eq_true_2.
  assert (Hdiff : bool_decide ("lion" = "elephant") = false)
    by by apply bool_decide_eq_false_2.
  destruct (Before (clock n + Minute) (clock (S (S (S n))))) eqn:Hb.
  - apply Before_lt in Hb. cbn [fst snd name items reads].
    rewrite Hsame, Hdiff. split; [|intros [? ?]; lia].
    unfold check. cbn [negb app]. by destruct (negb _).
  - apply Before_ge in Hb. cbn [fst snd name items reads].
    rewrite Hsame, Len_one_entry. cbn [fst ttl].
    destruct (decide (clock (S (S (S (S n)))) ≤ clock n + Minute)) as [Hl|Hl].
    + rewrite bool_decide_eq_true_2 by done. cbn. split; [intros _; lia|done].
    + rewrite bool_decide_eq_false_2 by done. cbn.
      split; [done|intros [? ?]; lia].
Qed.

(** X16.  [TestMapCreation], [TestInsertAbsent] and [TestRemove] report no
    error on any clock: what they check does not depend on a deadline being
    met. *)
Theorem X16_tests_independent_of_clock (n : nat) :
  (TestMapCreation clock order (New n)).1 = [] /\
  (TestInsertAbsent clock (New n)).1 = [] /\
  (TestRemove clock order (New n)).1 = [].
Proof.
  assert (Hempty : forall i,
            Len clock order (mk_State ∅ i) = (0, mk_State ∅ (S i))).
  { intros i. rewrite (Len_spec order order_perm clock).
    - cbn [items reads]. by rewrite map_filter_empty, map_size_empty.
    - cbn [items]. rewrite map_size_empty. lia. }
  split; [|split].
  - unfold TestMapCreation, bind, ret, New. by rewrite Hempty.
  - unfold TestInsertAbsent, bind, ret, time_Now, SetIfAbsent,
      cmap_SetIfAbsent, New.
    cbn [fst snd items reads]. rewrite lookup_empty.
    cbn [fst snd items reads]. by rewrite lookup_insert_eq.
  - unfold TestRemove, bind, ret, time_Now, Set_, Remove, cmap_Set,
      cmap_Remove, New.
    cbn [fst snd items reads].
    rewrite delete_insert_eq, delete_empty, Hempty.
    cbn [fst snd items reads].
    rewrite Get_absent by apply lookup_empty. done.
Qed.

(** X17.  [TestGet], [TestHas] and [TestIsEmpty] each report no error
    exactly when the reading made by their last check is at most one minute
    after the reading that fixed the deadline of the entry they stored. *)
Theorem X17_read_tests_outcome (n : nat) :
  ((TestGet clock (New n)).1 = [] <-> clock (S n) ≤ clock n + Minute) /\
  ((TestHas clock (New n)).1 = [] <-> clock (S n) ≤ clock n + Minute) /\
  ((TestIsEmpty clock order (New n)).1 = [] <->
   clock (S (S n)) ≤ clock (S n) + Minute).
Proof.
  assert (Hsame : bool_decide ("elephant" = "elephant") = true)
    by by apply bool_decide_eq_true_2.
  assert (Hdiff : bool_decide (name Animal_zero = "elephant") = false)
    by by apply bool_decide_eq_false_2.
  assert (Hzero : bool_decide (Animal_zero = Animal_zero) = true)
    by by apply bool_decide_eq_true_2.
  split; [|split].
  - unfold TestGet, bind, ret, New.
    rewrite (Get_absent Animal_zero clock "Money" (mk_State ∅ n))
      by apply lookup_empty.
    unfold time_Now, Set_, cmap_Set. cbn [fst snd items reads].
    rewrite insert_empty, Hzero.
    rewrite (Get_present Animal_zero clock _ _ _ (lookup_singleton_eq _ _)).
    cbn [ttl val reads].
    destruct (Before (clock n + Minute) (clock (S n))) eqn:Hb;
      cbn [fst snd name]; rewrite ?Hsame, ?Hdiff; cbn.
    + apply Before_lt in Hb. split; [done|lia].
    + apply Before_ge in Hb. done.
  - unfold TestHas, bind, ret, New.
    rewrite (Has_absent clock "Money" (mk_State ∅ n)) by apply lookup_empty.
    unfold time_Now, Set_, cmap_Set. cbn [fst snd items reads].
    rewrite insert_empty.
    rewrite (Has_present clock _ _ _ (lookup_singleton_eq _ _)).
    cbn [ttl val reads].
    destruct (Before (clock n + Minute) (clock (S n))) eqn:Hb; cbn.
    + apply Before_lt in Hb. split; [done|lia].
    + apply Before_ge in Hb. done.
  - unfold TestIsEmpty, IsEmpty, bind, ret, New.
    rewrite (Len_spec order order_perm clock (mk_State ∅ n)).
    2:{ cbn [items]. rewrite map_size_empty. lia. }
    unfold time_Now, Set_, cmap_Set. cbn [fst snd items reads].
    rewrite map_filter_empty, insert_empty, Len_one_entry, map_size_empty.
    cbn [fst ttl].
    destruct (decide (clock (S (S n)) ≤ clock (S n) + Minute)) as [Hl|Hl].
    + rewrite bool_decide_eq_true_2 by done. cbn. done.
    + rewrite bool_decide_eq_false_2 by done. cbn. split; [done|lia].
Qed.

End TestRuns.

(** * The further theorems at concrete stores *)

Lemma X4_witness :
  1%nat <> 2%nat /\
  items (Get 0%nat (Sample.fixed 7) 1%nat Sample.three).2 !! 2%nat
    = items Sample.three !! 2%nat.
Proof.
  assert (Hne : 1%nat <> 2%nat) by discriminate.
  destruct (X4_other_keys_untouched 0%nat (Sample.fixed 7) 1%nat 2%nat 0%nat 0
              Sample.three Hne) as (_ & _ & _ & _ & Hget & _).
  split; [exact Hne|exact Hget].
Defined.

Lemma X5_witness :
  items Sample.one !! 1%nat = Some Sample.e_5 /\
  ttl Sample.e_5 < Sample.fixed 6 (reads Sample.one) /\
  SetIfAbsent 1%nat 8%nat 99 Sample.one = (false, Sample.one) /\
  (SetIfAbsent 1%nat 8%nat 99
     (Has (Sample.fixed 6) 1%nat Sample.one).2).1 = true.
Proof.
  assert (Hk : items Sample.one !! 1%nat = Some Sample.e_5)
    by apply lookup_singleton_eq.
  assert (Hlt : ttl Sample.e_5 < Sample.fixed 6 (reads Sample.one))
    by (vm_compute; reflexivity).
  destruct (X5_expired_entry_blocks_until_read 0%nat (Sample.fixed 6) 1%nat
              Sample.e_5 8%nat 99 Sample.one Hk Hlt)
    as (Hblocked & _ & Hfree & _).
  split; [exact Hk|]. split; [exact Hlt|]. split; [exact Hblocked|exact Hfree].
Defined.

Lemma three_small : Z.of_nat (size (items Sample.three)) + 1 < 2 ^ 63.
Proof. vm_compute. reflexivity. Qed.

Lemma three_small' : Z.of_nat (size (items Sample.three)) < 2 ^ 63.
Proof. vm_compute. reflexivity. Qed.

Lemma X7_witness :
  Z.of_nat (size (items Sample.three)) < 2 ^ 63 /\
  items (IsEmpty (Sample.fixed 7) map_to_list Sample.three).2
    = filter (live 7) (items Sample.three).
Proof.
  destruct (X7_IsEmpty_iff_no_live_entry (Sample.fixed 7) map_to_list
              map_to_list_order Sample.three three_small') as (_ & _ & Hit).
  split; [exact three_small'|exact Hit].
Defined.

Lemma X8_witness :
  Z.of_nat (size (items Sample.three)) < 2 ^ 63 /\
  Sample.fixed 7 1%nat ≤ Sample.fixed 7 0%nat /\
  (Len (Sample.fixed 7) map_to_list Sample.three).1
    = Z.of_nat (size (items (Len (Sample.fixed 7) map_to_list
                               Sample.three).2)) /\
  (Len (Sample.fixed 7) map_to_list
     (Len (Sample.fixed 7) map_to_list Sample.three).2).1
    = (Len (Sample.fixed 7) map_to_list Sample.three).1.
Proof.
  assert (Hback : Sample.fixed 7 1%nat ≤ Sample.fixed 7 0%nat)
    by (vm_compute; discriminate).
  pose proof (X8_Len_is_size_of_what_it_leaves (Sample.fixed 7) map_to_list
                map_to_list_order Sample.three three_small') as Hw.
  cbv zeta in Hw. destruct Hw as (Hsize & _ & _ & _ & Hagain).
  split; [exact three_small'|]. split; [exact Hback|].
  split; [exact Hsize|]. by rewrite (Hagain Hback).
Defined.

Lemma X9_witness :
  Z.of_nat (size (items Sample.three)) + 1 < 2 ^ 63 /\
  items Sample.three !! 4%nat = None /\
  (Len (Sample.fixed 7) map_to_list
     (Set_ 4%nat 6%nat 30 Sample.three).2).1
    = (Len (Sample.fixed 7) map_to_list Sample.three).1
      + (if bool_decide (7 ≤ 30) then 1 else 0).
Proof.
  assert (Hk : items Sample.three !! 4%nat = None)
    by (vm_compute; reflexivity).
  pose proof (X9_Len_after_Set (Sample.fixed 7) map_to_list map_to_list_order
                4%nat 6%nat 30 Sample.three three_small) as Hw.
  cbv zeta in Hw. destruct Hw as (_ & Hfresh).
  split; [exact three_small|]. split; [exact Hk|exact (Hfresh Hk)].
Defined.

Lemma X10_witness :
  items (Range (Sample.fixed 7) map_to_list Sample.counting 0%nat
           Sample.three).2 ⊆ items Sample.three /\
  NoDup (Range (Sample.fixed 7) map_to_list (logged Sample.counting)
           (0%nat, []) Sample.three).1.2.*1.
Proof.
  pose proof (X10_Range_keeps_live_entries (Sample.fixed 7) map_to_list
                map_to_list_order Sample.counting 0%nat Sample.three
                counting_keeps_items) as Hw.
  cbv zeta in Hw. destruct Hw as (Hsub & _ & Hnodup).
  split; [exact Hsub|exact Hnodup].
Defined.

Lemma reversed_order {K} `{Countable K} {A} :
  forall m : gmap K A, reverse (map_to_list m) ≡ₚ map_to_list m.
Proof. intros m. apply reverse_Permutation. Qed.

Lemma X11_witness :
  Z.of_nat (size (items Sample.three)) < 2 ^ 63 /\
  (Keys_producer (Sample.fixed 7) (fun m => reverse (map_to_list m))
     Sample.three).1
    ≡ₚ (Iter_producer (Sample.fixed 7) map_to_list Sample.three).1.*1 /\
  Z.of_nat (length (Values_producer (Sample.fixed 7) map_to_list
                      Sample.three).1)
    = (Len (Sample.fixed 7) (fun m => reverse (map_to_list m))
         Sample.three).1.
Proof.
  pose proof (X11_producers_send_live_entries (Sample.fixed 7)
                map_to_list (fun m => reverse (map_to_list m)) map_to_list
                (fun m => reverse (map_to_list m))
                map_to_list_order reversed_order map_to_list_order
                reversed_order Sample.three) as Hw.
  cbv zeta in Hw. destruct Hw as (Hkeys & _ & _ & _ & _ & _ & _ & _ & Hlen).
  split; [exact three_small'|]. split; [exact Hkeys|].
  exact (proj2 (proj2 (Hlen three_small'))).
Defined.

Lemma stopping_stops (k v c : nat) (s : State nat nat) :
  (Sample.stopping k v c s).1.1 = false.
Proof. reflexivity. Qed.

Lemma X12_witness :
  (length (Range (Sample.fixed 7%Z) map_to_list (logged Sample.stopping)
             (0%nat, []) Sample.three).1.2 <= 1)%nat.
Proof.
  pose proof (X12_Range_stops_at_first_live_entry (Sample.fixed 7) map_to_list
                map_to_list_order Sample.stopping 0%nat Sample.three
                stopping_stops) as Hw.
  cbv zeta in Hw. destruct Hw as (_ & Hlen & _). exact Hlen.
Defined.

Lemma X13_witness :
  Sample.ticking 0 - Tests.Minute < Sample.ticking 1 /\
  (Tests.TestExpire Sample.ticking map_to_list (New 0)).1 = [].
Proof.
  assert (Hc : Sample.ticking 0 - Tests.Minute < Sample.ticking 1)
    by (vm_compute; reflexivity).
  split; [exact Hc|].
  apply (X13_TestExpire_outcome Sample.ticking map_to_list map_to_list_order).
  exact Hc.
Defined.

Lemma X14_witness :
  (Tests.TestInsert Sample.ticking map_to_list (New 0)).1 = [].
Proof.
  apply (X14_TestInsert_outcome Sample.ticking map_to_list map_to_list_order).
  split; vm_compute; discriminate.
Defined.

Lemma X15_witness :
  (Tests.TestGetOrSet Sample.ticking map_to_list (New 0)).1 = [].
Proof.
  apply (X15_TestGetOrSet_outcome Sample.ticking map_to_list map_to_list_order).
  split; vm_compute; discriminate.
Defined.

Lemma X16_witness :
  (Tests.TestRemove Sample.ticking map_to_list (New 0)).1 = [].
Proof.
  destruct (X16_tests_independent_of_clock Sample.ticking map_to_list
              map_to_list_order 0%nat) as (_ & _ & Hremove).
  exact Hremove.
Defined.

Lemma X17_witness :
  (Tests.TestIsEmpty Sample.ticking map_to_list (New 0)).1 = [].
Proof.
  destruct (X17_read_tests_outcome Sample.ticking map_to_list
              map_to_list_order 0%nat) as (_ & _ & Hempty).
  apply Hempty. vm_compute. discriminate.
Defined.
